(** * Redshift: the temperature model and the transition engine

    A shallow embedding of [src/redshift.c]: [calculate_temp], the gamma
    case of [parse_options], [do_oneshot] and the loop of [do_continous].

    Numbers.  The C code computes with [double] and [float].  A finite
    floating value is embedded as the rational [Q] it denotes, and the
    engine is given in two readings.  The first takes the arithmetic as
    exact; it carries the results on the flow of control, the backend
    calls and the signals, in which rounding plays no part.  The second,
    module [Rounded], rounds the result of every operation to the
    precision of its C type, 24 significant bits for [float] and 53 for
    [double], to nearest with ties to even; it carries the results on the
    values the engine computes.  NaN and the infinities are left out.
    A conversion to [int] truncates toward zero, as C does.  An [int] is
    embedded as [Z]; every [int] of the program stays far inside the
    32-bit range (temperatures below 10000, durations 2 and 10), so no
    wrap-around is written.  An [int] used as a flag is a [bool]. *)

From Stdlib Require Import ZArith QArith Qround Qabs Qpower Lqa Lia List Bool
  String Ascii.
Import ListNotations.

Local Open Scope Q_scope.

(** ** Arithmetic of the C expressions *)

(** [x < y] on doubles, as a test. *)
Definition Qltb (x y : Q) : bool := negb (Qle_bool y x).

(** [#define MIN(x,y) ((x) < (y) ? (x) : (y))] *)
Definition MIN (x y : Q) : Q := if Qltb x y then x else y.

(** [#define MAX(x,y) ((x) > (y) ? (x) : (y))] *)
Definition MAX (x y : Q) : Q := if Qltb y x then x else y.

(** Conversion of a floating value to [int]: the fractional part is
    discarded (truncation toward zero). *)
Definition double_to_int (x : Q) : Z :=
  if Qle_bool 0 x then Qfloor x else Qceiling x.

(** [#define TRANSITION_HIGH 3.0] *)
Definition TRANSITION_HIGH : Q := 3.

(** Modelled from the spec: the constant [SOLAR_CIVIL_TWILIGHT_ELEV] of
    [solar.h], which [TRANSITION_LOW] expands to, is not among the sources;
    the specification gives the civil-twilight elevation as -6 degrees.
    The general results below take the constant as a parameter; this value
    is used for the concrete scenarios. *)
Definition civil_twilight_elev : Q := -6.

(** Neutral reference temperature of the blend in [do_continous]. *)
Definition NEUTRAL_TEMP : Q := 6500.

(** ** Backend events

    The backend is seen through the calls the engine makes on it.  The
    gamma triple passed to [gamma_state_set_temperature] is always
    [opts->gamma] and is left out of the event. *)
Inductive event : Type :=
| EvSetTemperature (temp : Z)   (* gamma_state_set_temperature(state, method, temp, gamma) *)
| EvRestore                     (* gamma_state_restore(state, method) *)
| EvFree                        (* gamma_state_free(state, method) *)
| EvSleep (usec : Z).           (* usleep(usec) *)

Definition is_set_temperature (e : event) : bool :=
  match e with EvSetTemperature _ => true | _ => false end.

Definition is_restore (e : event) : bool :=
  match e with EvRestore => true | _ => false end.

(** How a run of [do_oneshot] or [do_continous] ends. *)
Inductive run_result : Type :=
| Returned (r : Z)              (* return r; *)
| Exited (status : Z)           (* exit(status); *)
| Running.                      (* the loop has not ended on the inputs given *)

Definition EXIT_FAILURE : Z := 1.

(** ** Options: the fields of [rs_opts] that the engine reads *)
Record rs_opts : Type := mk_opts {
  lat : Q;
  lon : Q;
  temp_day : Z;
  temp_night : Z;
  gamma : Q * Q * Q;
  transition : bool;
  one_shot : bool;
  verbose : bool
}.

Section Engine.

(** [SOLAR_CIVIL_TWILIGHT_ELEV] and [solar_elevation] come from [solar.h]
    and [solar.c], which are outside the sources at hand. *)
Variable SOLAR_CIVIL_TWILIGHT_ELEV : Q.
Variable solar_elevation : Q -> Q -> Q -> Q.

(** [#define TRANSITION_LOW SOLAR_CIVIL_TWILIGHT_ELEV] *)
Definition TRANSITION_LOW : Q := SOLAR_CIVIL_TWILIGHT_ELEV.

(** The local [a] of [calculate_temp]. *)
Definition transition_fraction (elevation : Q) : Q :=
  (TRANSITION_LOW - elevation) / (TRANSITION_LOW - TRANSITION_HIGH).

(** [calculate_temp]; the [verbose] argument only selects what is printed. *)
Definition calculate_temp (elevation : Q) (temp_day temp_night : Z) : Z :=
  if Qltb elevation TRANSITION_LOW then temp_night
  else if Qltb elevation TRANSITION_HIGH then
    let a := transition_fraction elevation in
    double_to_int ((1 - a) * inject_Z temp_night + a * inject_Z temp_day)
  else temp_day.

(** *** One-shot mode *)

(** [do_oneshot].  [time] is what [systemtime_get_time] yields ([None]
    when it returns a negative value) and [set_ok] tells whether the
    backend accepts the temperature. *)
Definition do_oneshot (opts : rs_opts) (time : option Q) (set_ok : bool)
  : list event * run_result :=
  match time with
  | None => ([EvFree], Exited EXIT_FAILURE)
  | Some now =>
      let elevation := solar_elevation now (lat opts) (lon opts) in
      let temp := calculate_temp elevation (temp_day opts) (temp_night opts) in
      if set_ok then ([EvSetTemperature temp], Returned 0)
      else ([EvSetTemperature temp; EvFree], Exited EXIT_FAILURE)
  end.

(** *** Continuous mode *)

(** The locals of [do_continous] that live across iterations. *)
Record loop_state : Type := mk_state {
  short_trans_end : Q;
  short_trans : bool;
  short_trans_done : bool;
  short_trans_create : bool;
  short_trans_begin : bool;
  short_trans_len : Z;
  adjustment_alpha : Q;
  done : bool;
  disabled : bool
}.

(** Values of the locals when the loop is entered. *)
Definition init_state : loop_state :=
  {| short_trans_end := 0;
     short_trans := false;
     short_trans_done := false;
     short_trans_create := true;
     short_trans_begin := true;
     short_trans_len := 10;
     adjustment_alpha := 0;
     done := false;
     disabled := false |}.

(** What one iteration reads from outside: the two signal flags as the
    loop finds them, the clock, and the verdict of the backend should the
    iteration call it. *)
Record tick_env : Type := mk_env {
  sig_disable : bool;
  sig_exiting : bool;
  env_time : option Q;
  env_set_ok : bool
}.

(** [if (disable) { ... }] *)
Definition check_disable (flag : bool) (s : loop_state) : loop_state :=
  if flag then
    if negb (disabled s) then
      {| short_trans_end := short_trans_end s;
         short_trans := short_trans s;
         short_trans_done := short_trans_done s;
         short_trans_create := true;
         short_trans_begin := false;
         short_trans_len := 2;
         adjustment_alpha := 1;
         done := done s;
         disabled := true |}
    else
      {| short_trans_end := short_trans_end s;
         short_trans := short_trans s;
         short_trans_done := short_trans_done s;
         short_trans_create := true;
         short_trans_begin := true;
         short_trans_len := 2;
         adjustment_alpha := 0;
         done := done s;
         disabled := false |}
  else s.

(** [if (exiting) { ... }] *)
Definition check_exiting (flag : bool) (s : loop_state) : loop_state :=
  if flag then
    if done s then
      {| short_trans_end := short_trans_end s;
         short_trans := false;
         short_trans_done := short_trans_done s;
         short_trans_create := short_trans_create s;
         short_trans_begin := short_trans_begin s;
         short_trans_len := short_trans_len s;
         adjustment_alpha := adjustment_alpha s;
         done := done s;
         disabled := disabled s |}
    else if negb (disabled s) then
      {| short_trans_end := short_trans_end s;
         short_trans := short_trans s;
         short_trans_done := short_trans_done s;
         short_trans_create := true;
         short_trans_begin := false;
         short_trans_len := 2;
         adjustment_alpha := 1;
         done := true;
         disabled := disabled s |}
    else
      {| short_trans_end := short_trans_end s;
         short_trans := short_trans s;
         short_trans_done := short_trans_done s;
         short_trans_create := short_trans_create s;
         short_trans_begin := short_trans_begin s;
         short_trans_len := short_trans_len s;
         adjustment_alpha := adjustment_alpha s;
         done := true;
         disabled := disabled s |}
  else s.

(** The two signal checks that open an iteration. *)
Definition poll_signals (env : tick_env) (s : loop_state) : loop_state :=
  check_exiting (sig_exiting env) (check_disable (sig_disable env) s).

(** [if (short_trans_create) { ... }] *)
Definition setup_transition (opts : rs_opts) (now : Q) (s : loop_state)
  : loop_state :=
  if short_trans_create s then
    if transition opts then
      {| short_trans_end := now + inject_Z (short_trans_len s);
         short_trans := true;
         short_trans_done := short_trans_done s;
         short_trans_create := false;
         short_trans_begin := short_trans_begin s;
         short_trans_len := short_trans_len s;
         adjustment_alpha := adjustment_alpha s;
         done := done s;
         disabled := disabled s |}
    else
      {| short_trans_end := short_trans_end s;
         short_trans := short_trans s;
         short_trans_done := true;
         short_trans_create := short_trans_create s;
         short_trans_begin := short_trans_begin s;
         short_trans_len := short_trans_len s;
         adjustment_alpha := adjustment_alpha s;
         done := done s;
         disabled := disabled s |}
  else s.

(** The value given to [adjustment_alpha] inside [if (short_trans)]:
    computed, inverted when [short_trans_begin] is clear, then clamped. *)
Definition fade_alpha (now : Q) (s : loop_state) : Q :=
  let a := (short_trans_end s - now) / inject_Z (short_trans_len s) in
  let a := if negb (short_trans_begin s) then 1 - a else a in
  MAX 0 (MIN a 1).

(** [if (short_trans) { ... }] *)
Definition ongoing_transition (now : Q) (s : loop_state) : loop_state :=
  if short_trans s then
    let over := Qltb (short_trans_end s) now in
    {| short_trans_end := short_trans_end s;
       short_trans := if over then false else short_trans s;
       short_trans_done := if over then true else short_trans_done s;
       short_trans_create := short_trans_create s;
       short_trans_begin := short_trans_begin s;
       short_trans_len := short_trans_len s;
       adjustment_alpha := fade_alpha now s;
       done := done s;
       disabled := disabled s |}
  else s.

(** [if (short_trans_done) { ... }] *)
Definition handle_end (s : loop_state) : list event * loop_state :=
  if short_trans_done s then
    (if disabled s then [EvRestore] else [],
     {| short_trans_end := short_trans_end s;
        short_trans := short_trans s;
        short_trans_done := false;
        short_trans_create := short_trans_create s;
        short_trans_begin := short_trans_begin s;
        short_trans_len := short_trans_len s;
        adjustment_alpha := adjustment_alpha s;
        done := done s;
        disabled := disabled s |})
  else ([], s).

(** [temp = adjustment_alpha*6500 + (1.0-adjustment_alpha)*temp;] *)
Definition blend (alpha : Q) (temp : Z) : Z :=
  double_to_int (alpha * NEUTRAL_TEMP + (1 - alpha) * inject_Z temp).

(** The sleep that closes an iteration. *)
Definition tick_sleep (s : loop_state) : event :=
  if short_trans s then EvSleep 100000 else EvSleep 5000000.

(** How one iteration ends; the state is the one it ends in. *)
Inductive outcome : Type :=
| Continue (s : loop_state)     (* falls through to the next iteration *)
| Break (s : loop_state)        (* break; *)
| Fatal (s : loop_state).       (* gamma_state_free(...); exit(EXIT_FAILURE); *)

Definition outcome_state (o : outcome) : loop_state :=
  match o with Continue s | Break s | Fatal s => s end.

(** The state of an iteration at the point where it decides whether to
    call the backend, given the time it has read. *)
Definition tick_state (opts : rs_opts) (env : tick_env) (now : Q)
    (s : loop_state) : loop_state :=
  snd (handle_end
         (ongoing_transition now
            (setup_transition opts now (poll_signals env s)))).

(** The state after the signal checks and the set-up of a transition. *)
Definition armed_state (opts : rs_opts) (env : tick_env) (now : Q)
    (s : loop_state) : loop_state :=
  setup_transition opts now (poll_signals env s).

(** The [gamma_state_restore] that an iteration may make at the end of a
    transition. *)
Definition tick_restored (opts : rs_opts) (env : tick_env) (now : Q)
    (s : loop_state) : list event :=
  fst (handle_end (ongoing_transition now (armed_state opts env now s))).

(** The temperature an iteration computes once the clock is read. *)
Definition tick_temp (opts : rs_opts) (env : tick_env) (now : Q)
    (s : loop_state) : Z :=
  blend (adjustment_alpha (tick_state opts env now s))
        (calculate_temp (solar_elevation now (lat opts) (lon opts))
                        (temp_day opts) (temp_night opts)).

(** What holds of the locals at the head of every iteration. *)
Definition loop_inv (opts : rs_opts) (s : loop_state) : Prop :=
  short_trans_done s = false /\
  (transition opts = true -> short_trans_create s = true ->
     done s = false /\ disabled s = false) /\
  (transition opts = false -> short_trans s = false) /\
  0 <= adjustment_alpha s <= 1.

(** The body of [while (1)]. *)
Definition tick (opts : rs_opts) (env : tick_env) (s : loop_state)
  : list event * outcome :=
  let s := poll_signals env s in
  match env_time env with
  | None => ([EvFree], Fatal s)
  | Some now =>
      let s := setup_transition opts now s in
      let elevation := solar_elevation now (lat opts) (lon opts) in
      let temp := calculate_temp elevation (temp_day opts) (temp_night opts) in
      let s := ongoing_transition now s in
      let '(restored, s) := handle_end s in
      let temp := blend (adjustment_alpha s) temp in
      if done s && negb (short_trans s) then (restored, Break s)
      else if negb (disabled s) || short_trans s then
        if env_set_ok env then
          (restored ++ [EvSetTemperature temp; tick_sleep s], Continue s)
        else
          (restored ++ [EvSetTemperature temp; EvFree], Fatal s)
      else (restored ++ [tick_sleep s], Continue s)
  end.

(** The loop, run on the inputs of successive iterations, followed by
    what [do_continous] does after it. *)
Fixpoint loop (opts : rs_opts) (envs : list tick_env) (s : loop_state)
  : list event * run_result :=
  match envs with
  | [] => ([], Running)
  | env :: envs' =>
      let '(evs, o) := tick opts env s in
      match o with
      | Continue s' =>
          let '(evs', r) := loop opts envs' s' in (evs ++ evs', r)
      | Break _ => (evs ++ [EvRestore], Returned 0)
      | Fatal _ => (evs, Exited EXIT_FAILURE)
      end
  end.

Definition do_continous (opts : rs_opts) (envs : list tick_env)
  : list event * run_result :=
  loop opts envs init_state.

(** States in which the loop can stand at the head of an iteration. *)
Inductive reachable (opts : rs_opts) : loop_state -> Prop :=
| reach_init : reachable opts init_state
| reach_tick s env evs s' :
    reachable opts s ->
    tick opts env s = (evs, Continue s') ->
    reachable opts s'.

End Engine.

(** ** The gamma argument of [parse_options] *)

Local Open Scope string_scope.

(** [strchr(s, c)] for a character [c] other than NUL: the offset of the
    first [c] in the C string [s], [None] for a null pointer. *)
Fixpoint strchr (s : string) (c : ascii) : option nat :=
  match s with
  | EmptyString => None
  | String a s' =>
      if Ascii.eqb a c then Some 0%nat else option_map S (strchr s' c)
  end.

(** The C string read at the start of a buffer once NUL has been written
    at offset [n]. *)
Fixpoint str_take (n : nat) (s : string) : string :=
  match n, s with
  | O, _ => EmptyString
  | S _, EmptyString => EmptyString
  | S n', String a s' => String a (str_take n' s')
  end.

(** The C string read at offset [n] of a buffer. *)
Fixpoint str_drop (n : nat) (s : string) : string :=
  match n, s with
  | O, _ => s
  | S _, EmptyString => EmptyString
  | S n', String _ s' => str_drop n' s'
  end.

Section GammaArgument.

(** [atof] of the C library. *)
Variable atof : string -> Q.

(** [case 'g':] of [parse_options]: the new contents of [opts->gamma]
    (slots 0, 1 and 2 in this order), or [None] where the program prints
    "Malformed gamma argument." and exits. *)
Definition parse_gamma (optarg : string) : option (Q * Q * Q) :=
  match strchr optarg ":" with
  | None =>
      let g := atof optarg in Some (g, g, g)
  | Some i =>
      let gamma0 := atof (str_take i optarg) in
      let g_s := str_drop (S i) optarg in
      match strchr g_s ":" with
      | None => None
      | Some j =>
          let gamma1 := atof (str_take j g_s) in
          let gamma2 := atof (str_drop (S j) g_s) in
          Some (gamma0, gamma1, gamma2)
      end
  end.

End GammaArgument.

(** Slot [k] of a gamma array. *)
Definition gamma_slot (k : nat) (g : Q * Q * Q) : Q :=
  match k, g with
  | 0%nat, (r, _, _) => r
  | 1%nat, (_, x, _) => x
  | _, (_, _, x) => x
  end.

Local Close Scope string_scope.

(** ** The specification's reading of the fade fraction

    Section 4.4 of the specification: the fraction "is computed from
    elapsed time / duration, clamped to [0,1], and inverted if the
    transition direction is toward neutral".  [spec_fade_alpha] follows
    these words, to be compared with [fade_alpha] above. *)
Definition spec_fade_alpha (elapsed duration : Q) (toward_neutral : bool) : Q :=
  let a := MAX 0 (MIN (elapsed / duration) 1) in
  if toward_neutral then 1 - a else a.

(** ** Fixtures of the scenarios

    Copenhagen, 5500 K by day and 3700 K by night, gamma 1; [tr] is the
    transition flag. *)
Definition scenario_opts (tr : bool) : rs_opts :=
  {| lat := 557 # 10; lon := 126 # 10;
     temp_day := 5500; temp_night := 3700;
     gamma := (1, 1, 1);
     transition := tr; one_shot := false; verbose := false |}.

(** A sun that stands 10 degrees above the horizon at all times. *)
Definition daylight (now lat lon : Q) : Q := 10.

(** A stand-in for [atof] that tells the components of an argument apart:
    the length of the text. *)
Definition text_length (s : string) : Q :=
  inject_Z (Z.of_nat (String.length s)).

(** Inputs of an iteration at time [t]: nothing pending, a disable
    signal, an exit signal, both, and the two failures. *)
Definition env_quiet (t : Q) : tick_env :=
  {| sig_disable := false; sig_exiting := false;
     env_time := Some t; env_set_ok := true |}.

Definition env_disable (t : Q) : tick_env :=
  {| sig_disable := true; sig_exiting := false;
     env_time := Some t; env_set_ok := true |}.

Definition env_stop (t : Q) : tick_env :=
  {| sig_disable := false; sig_exiting := true;
     env_time := Some t; env_set_ok := true |}.

Definition env_stop_disable (t : Q) : tick_env :=
  {| sig_disable := true; sig_exiting := true;
     env_time := Some t; env_set_ok := true |}.

Definition env_clock_failure : tick_env :=
  {| sig_disable := false; sig_exiting := false;
     env_time := None; env_set_ok := true |}.

Definition env_backend_failure (t : Q) : tick_env :=
  {| sig_disable := false; sig_exiting := false;
     env_time := Some t; env_set_ok := false |}.

(** One iteration of the scenario engine, and the state in which the
    loop stands after the given iterations. *)
Definition scenario_tick (tr : bool) : tick_env -> loop_state -> list event * outcome :=
  tick civil_twilight_elev daylight (scenario_opts tr).

Definition scenario_reachable (tr : bool) : loop_state -> Prop :=
  reachable civil_twilight_elev daylight (scenario_opts tr).

Definition scenario_loop (tr : bool)
  : list tick_env -> loop_state -> list event * run_result :=
  loop civil_twilight_elev daylight (scenario_opts tr).

Definition scenario_run (tr : bool) : list tick_env -> list event * run_result :=
  do_continous civil_twilight_elev daylight (scenario_opts tr).

Definition scenario_oneshot (tr : bool)
  : option Q -> bool -> list event * run_result :=
  do_oneshot civil_twilight_elev daylight (scenario_opts tr).

Definition state_after (tr : bool) (envs : list tick_env) : loop_state :=
  fold_left (fun s env => outcome_state (snd (scenario_tick tr env s)))
            envs init_state.

(** ** Tactics for the blocks of the loop body *)

Ltac proj_simpl :=
  cbn [short_trans_end short_trans short_trans_done short_trans_create
       short_trans_begin short_trans_len adjustment_alpha done disabled
       sig_disable sig_exiting env_time env_set_ok
       fst snd negb andb orb xorb].

Ltac split_ifs :=
  repeat (proj_simpl;
    match goal with
    | |- context [if ?b then _ else _] => is_var b; destruct b
    end); proj_simpl.

(** Case analysis on the flags of one block of the loop body. *)
Ltac by_flags s :=
  destruct s as [? ? ? ? ? ? ? ? ?];
  unfold poll_signals, check_disable, check_exiting, setup_transition,
         ongoing_transition, handle_end;
  split_ifs;
  repeat match goal with b : bool |- _ => destruct b end;
  proj_simpl.

(** ** [main], once the options are parsed and the method initialised *)

Definition EXIT_SUCCESS : Z := 0.

(** [#define MIN_TEMP 1000] and [#define MAX_TEMP 10000] *)
Definition MIN_TEMP : Z := 1000.
Definition MAX_TEMP : Z := 10000.

(** The end of [main]: one-shot mode or the graphical front end, then
    [gamma_state_free] and [return EXIT_SUCCESS].  [redshift_gui] is not
    among the sources; [gui] stands for the backend calls it makes before
    it returns (none when no front end is compiled in).  [do_oneshot] only
    ever returns 0, and [main] exits with failure on anything else. *)
Definition main_after_init (low : Q) (solar_elevation : Q -> Q -> Q -> Q)
    (gui : list event) (opts : rs_opts) (time : option Q) (set_ok : bool)
  : list event * run_result :=
  if one_shot opts then
    match do_oneshot low solar_elevation opts time set_ok with
    | (evs, Returned r) =>
        if (r =? 0)%Z then (evs ++ [EvFree], Returned EXIT_SUCCESS)
        else (evs, Exited EXIT_FAILURE)
    | (evs, r) => (evs, r)
    end
  else (gui ++ [EvFree], Returned EXIT_SUCCESS).

Definition is_free (e : event) : bool :=
  match e with EvFree => true | _ => false end.

Definition is_sleep (e : event) : bool :=
  match e with EvSleep _ => true | _ => false end.

(** The scenario options with the one-shot flag set. *)
Definition oneshot_opts : rs_opts :=
  {| lat := 557 # 10; lon := 126 # 10;
     temp_day := 5500; temp_night := 3700;
     gamma := (1, 1, 1);
     transition := true; one_shot := true; verbose := false |}.

(** ** Adjustment methods *)

(** [gamma_method_t] *)
Definition GAMMA_METHOD_RANDR : Z := 0.
Definition GAMMA_METHOD_VIDMODE : Z := 1.
Definition GAMMA_METHOD_WINGDI : Z := 2.
Definition GAMMA_METHOD_MAX : Z := 3.

(** The native backends behind the methods. *)
Inductive backend : Type := Randr | Vidmode | W32gdi.

(** Calls on the functions of a backend: [randr_init], [vidmode_restore],
    and so on. *)
Inductive backend_call : Type :=
| BkInit (b : backend)
| BkSetTemperature (b : backend) (temp : Z)
| BkRestore (b : backend)
| BkFree (b : backend).

(** How [init_method] ends: it returns 0 with [*method] set, or it exits. *)
Inductive init_outcome : Type :=
| InitReturned (method : Z)
| InitExited (status : Z).

Section Methods.

(** The compile-time switches [ENABLE_RANDR], [ENABLE_VIDMODE] and
    [ENABLE_WINGDI]. *)
Variables ENABLE_RANDR ENABLE_VIDMODE ENABLE_WINGDI : bool.

(** The case that [switch (method)] reaches in [gamma_state_restore],
    [gamma_state_free] and [gamma_state_set_temperature]; [None] is
    [default]. *)
Definition method_case (method : Z) : option backend :=
  if ENABLE_RANDR && (method =? GAMMA_METHOD_RANDR)%Z then Some Randr
  else if ENABLE_VIDMODE && (method =? GAMMA_METHOD_VIDMODE)%Z then Some Vidmode
  else if ENABLE_WINGDI && (method =? GAMMA_METHOD_WINGDI)%Z then Some W32gdi
  else None.

Definition gamma_state_restore (method : Z) : list backend_call :=
  match method_case method with
  | Some b => [BkRestore b]
  | None => []
  end.

Definition gamma_state_free (method : Z) : list backend_call :=
  match method_case method with
  | Some b => [BkFree b]
  | None => []
  end.

(** [result b] is what the backend's own function returns. *)
Definition gamma_state_set_temperature (result : backend -> Z) (method : Z)
    (temp : Z) : list backend_call * Z :=
  match method_case method with
  | Some b => ([BkSetTemperature b temp], result b)
  | None => ([], (-1)%Z)
  end.

(** One of the three blocks of [init_method], for the backend [b] of
    method number [id]: the call made, and the new value of [*method], or
    [None] where the block exits.  [init_ok b] tells whether the init
    function of [b] returns a value that is not negative. *)
Definition init_block (enabled : bool) (id : Z) (b : backend)
    (init_ok : backend -> bool) (method : Z)
  : list backend_call * option Z :=
  if enabled && ((method <? 0)%Z || (method =? id)%Z) then
    if init_ok b then ([BkInit b], Some id)
    else if (method <? 0)%Z then ([BkInit b], Some method)
    else ([BkInit b], None)
  else ([], Some method).

(** [init_method], from the value of [*method] on entry. *)
Definition init_method (init_ok : backend -> bool) (method : Z)
  : list backend_call * init_outcome :=
  let '(c1, r1) :=
    init_block ENABLE_RANDR GAMMA_METHOD_RANDR Randr init_ok method in
  match r1 with
  | None => (c1, InitExited EXIT_FAILURE)
  | Some m1 =>
      let '(c2, r2) :=
        init_block ENABLE_VIDMODE GAMMA_METHOD_VIDMODE Vidmode init_ok m1 in
      match r2 with
      | None => (c1 ++ c2, InitExited EXIT_FAILURE)
      | Some m2 =>
          let '(c3, r3) :=
            init_block ENABLE_WINGDI GAMMA_METHOD_WINGDI W32gdi init_ok m2 in
          match r3 with
          | None => (c1 ++ c2 ++ c3, InitExited EXIT_FAILURE)
          | Some m3 =>
              if (m3 <? 0)%Z then (c1 ++ c2 ++ c3, InitExited EXIT_FAILURE)
              else (c1 ++ c2 ++ c3, InitReturned m3)
          end
      end
  end.

(** Whether a backend is compiled in, and its method number. *)
Definition backend_enabled (b : backend) : bool :=
  match b with
  | Randr => ENABLE_RANDR
  | Vidmode => ENABLE_VIDMODE
  | W32gdi => ENABLE_WINGDI
  end.

End Methods.

Definition method_of (b : backend) : Z :=
  match b with
  | Randr => GAMMA_METHOD_RANDR
  | Vidmode => GAMMA_METHOD_VIDMODE
  | W32gdi => GAMMA_METHOD_WINGDI
  end.

(** ** [parse_options] *)

(** Bounds and defaults of the parameters. *)
Definition MIN_LAT : Q := -90.
Definition MAX_LAT : Q := 90.
Definition MIN_LON : Q := -180.
Definition MAX_LON : Q := 180.
Definition MIN_GAMMA : Q := 1 # 10.
Definition MAX_GAMMA : Q := 10.
Definition DEFAULT_DAY_TEMP : Z := 5500.
Definition DEFAULT_NIGHT_TEMP : Z := 3700.
Definition DEFAULT_GAMMA : Q := 1.

Module Options.

(** [rs_opts] with all the fields that [parse_options] fills.  [lat] and
    [lon] are [None] while they hold NAN; the values that [atof] yields are
    taken to be numbers. *)
Record rs_opts : Type := mk {
  lat : option Q;
  lon : option Q;
  temp_day : Z;
  temp_night : Z;
  gamma : Q * Q * Q;
  method : Z;
  screen_num : Z;
  crtc_num : Z;
  transition : bool;
  one_shot : bool;
  verbose : bool
}.

(** How [parse_options] ends: it returns 0 with the options filled in, or
    the program exits. *)
Inductive outcome : Type :=
| Parsed (o : rs_opts)
| Exit (status : Z).

(** The values given to the fields before the options are read. *)
Definition defaults : rs_opts :=
  {| lat := None; lon := None;
     temp_day := DEFAULT_DAY_TEMP; temp_night := DEFAULT_NIGHT_TEMP;
     gamma := (DEFAULT_GAMMA, DEFAULT_GAMMA, DEFAULT_GAMMA);
     method := -1; screen_num := -1; crtc_num := -1;
     transition := true; one_shot := false; verbose := false |}.

Section Parse.

(** [atof] and [atoi] of the C library and the compile-time switches. *)
Variable atof : string -> Q.
Variable atoi : string -> Z.
Variables ENABLE_RANDR ENABLE_VIDMODE ENABLE_WINGDI : bool.

(** [case 'm':] the new value of [opts->method], or [None] where the
    program exits with failure. *)
Definition parse_method (optarg : string) : option Z :=
  if String.eqb optarg "randr" || String.eqb optarg "RANDR" then
    if ENABLE_RANDR then Some GAMMA_METHOD_RANDR else None
  else if String.eqb optarg "vidmode" || String.eqb optarg "VidMode" then
    if ENABLE_VIDMODE then Some GAMMA_METHOD_VIDMODE else None
  else if String.eqb optarg "wingdi" || String.eqb optarg "WinGDI" then
    if ENABLE_WINGDI then Some GAMMA_METHOD_WINGDI else None
  else None.

(** The body of [switch (opt)] for one option returned by [getopt]. *)
Definition parse_option (o : rs_opts) (opt : ascii) (optarg : string)
  : outcome :=
  if Ascii.eqb opt "c" then
    Parsed {| lat := lat o; lon := lon o; temp_day := temp_day o;
              temp_night := temp_night o; gamma := gamma o;
              method := method o; screen_num := screen_num o;
              crtc_num := atoi optarg;
              transition := transition o; one_shot := one_shot o;
              verbose := verbose o |}
  else if Ascii.eqb opt "g" then
    match parse_gamma atof optarg with
    | None => Exit EXIT_FAILURE
    | Some g =>
        Parsed {| lat := lat o; lon := lon o; temp_day := temp_day o;
                  temp_night := temp_night o; gamma := g;
                  method := method o; screen_num := screen_num o;
                  crtc_num := crtc_num o;
                  transition := transition o; one_shot := one_shot o;
                  verbose := verbose o |}
    end
  else if Ascii.eqb opt "h" then Exit EXIT_SUCCESS
  else if Ascii.eqb opt "l" then
    match strchr optarg ":" with
    | None => Exit EXIT_FAILURE
    | Some i =>
        Parsed {| lat := Some (atof (str_take i optarg));
                  lon := Some (atof (str_drop (S i) optarg));
                  temp_day := temp_day o;
                  temp_night := temp_night o; gamma := gamma o;
                  method := method o; screen_num := screen_num o;
                  crtc_num := crtc_num o;
                  transition := transition o; one_shot := one_shot o;
                  verbose := verbose o |}
    end
  else if Ascii.eqb opt "m" then
    match parse_method optarg with
    | None => Exit EXIT_FAILURE
    | Some m =>
        Parsed {| lat := lat o; lon := lon o; temp_day := temp_day o;
                  temp_night := temp_night o; gamma := gamma o;
                  method := m; screen_num := screen_num o;
                  crtc_num := crtc_num o;
                  transition := transition o; one_shot := one_shot o;
                  verbose := verbose o |}
    end
  else if Ascii.eqb opt "o" then
    Parsed {| lat := lat o; lon := lon o; temp_day := temp_day o;
              temp_night := temp_night o; gamma := gamma o;
              method := method o; screen_num := screen_num o;
              crtc_num := crtc_num o;
              transition := transition o; one_shot := true;
              verbose := verbose o |}
  else if Ascii.eqb opt "r" then
    Parsed {| lat := lat o; lon := lon o; temp_day := temp_day o;
              temp_night := temp_night o; gamma := gamma o;
              method := method o; screen_num := screen_num o;
              crtc_num := crtc_num o;
              transition := false; one_shot := one_shot o;
              verbose := verbose o |}
  else if Ascii.eqb opt "s" then
    Parsed {| lat := lat o; lon := lon o; temp_day := temp_day o;
              temp_night := temp_night o; gamma := gamma o;
              method := method o; screen_num := atoi optarg;
              crtc_num := crtc_num o;
              transition := transition o; one_shot := one_shot o;
              verbose := verbose o |}
  else if Ascii.eqb opt "t" then
    match strchr optarg ":" with
    | None => Exit EXIT_FAILURE
    | Some i =>
        Parsed {| lat := lat o; lon := lon o;
                  temp_day := atoi (str_take i optarg);
                  temp_night := atoi (str_drop (S i) optarg);
                  gamma := gamma o;
                  method := method o; screen_num := screen_num o;
                  crtc_num := crtc_num o;
                  transition := transition o; one_shot := one_shot o;
                  verbose := verbose o |}
    end
  else if Ascii.eqb opt "v" then
    Parsed {| lat := lat o; lon := lon o; temp_day := temp_day o;
              temp_night := temp_night o; gamma := gamma o;
              method := method o; screen_num := screen_num o;
              crtc_num := crtc_num o;
              transition := transition o; one_shot := one_shot o;
              verbose := true |}
  else if Ascii.eqb opt "?" then Exit EXIT_FAILURE
  else Parsed o.

(** The [while ((opt = getopt(...)) != -1)] loop, on the options that
    [getopt] returns in turn, each with its [optarg]. *)
Fixpoint getopt_loop (args : list (ascii * string)) (o : rs_opts) : outcome :=
  match args with
  | [] => Parsed o
  | (opt, optarg) :: rest =>
      match parse_option o opt optarg with
      | Parsed o' => getopt_loop rest o'
      | Exit status => Exit status
      end
  end.

Definition out_of (lo hi x : Q) : bool := Qltb x lo || Qltb hi x.

(** The checks that follow the loop. *)
Definition check_options (o : rs_opts) : outcome :=
  match lat o, lon o with
  | Some la, Some lo =>
      if out_of MIN_LAT MAX_LAT la then Exit EXIT_FAILURE
      else if out_of MIN_LON MAX_LON lo then Exit EXIT_FAILURE
      else if (temp_day o <? MIN_TEMP)%Z || (MAX_TEMP <=? temp_day o)%Z
      then Exit EXIT_FAILURE
      else if (temp_night o <? MIN_TEMP)%Z || (MAX_TEMP <=? temp_night o)%Z
      then Exit EXIT_FAILURE
      else if out_of MIN_GAMMA MAX_GAMMA (gamma_slot 0 (gamma o))
              || out_of MIN_GAMMA MAX_GAMMA (gamma_slot 1 (gamma o))
              || out_of MIN_GAMMA MAX_GAMMA (gamma_slot 2 (gamma o))
      then Exit EXIT_FAILURE
      else if (-1 <? crtc_num o)%Z
              && negb (method o =? GAMMA_METHOD_RANDR)%Z
      then Exit EXIT_FAILURE
      else Parsed o
  | _, _ => Exit EXIT_FAILURE
  end.

(** [parse_options]: the loop from the defaults, then the checks. *)
Definition parse_options (args : list (ascii * string)) : outcome :=
  match getopt_loop args defaults with
  | Parsed o => check_options o
  | Exit status => Exit status
  end.

End Parse.

End Options.

(** The method is unset or names a backend that is compiled in. *)
Definition method_known (ENABLE_RANDR ENABLE_VIDMODE ENABLE_WINGDI : bool)
    (o : Options.rs_opts) : Prop :=
  Options.method o = (-1)%Z \/
  exists b,
    method_case ENABLE_RANDR ENABLE_VIDMODE ENABLE_WINGDI (Options.method o)
      = Some b.

(** ** The VidMode backend ([backends/vidmode.c]) *)

Module VidMode.

Inductive channel : Type := Red | Green | Blue.

(** The two blocks the backend allocates: [state->saved_ramps] and the
    [gamma_ramps] of [vidmode_set_temperature]. *)
Inductive buffer : Type := SavedRamps | GammaRamps.

(** Calls on Xlib, the XF86VidMode extension and the allocator, in the
    order the backend makes them.  [XOpenDisplay] and [Malloc] record
    whether they yield a pointer that is not null; [Malloc] counts
    [uint16_t] elements. *)
Inductive x_call : Type :=
| XOpenDisplay (ok : bool)
| XCloseDisplay
| XF86VidModeQueryVersion
| XF86VidModeGetGammaRampSize (screen : Z)
| XF86VidModeGetGammaRamp (screen size : Z)
| XF86VidModeSetGammaRamp (screen size : Z) (r g b : list Z)
| Malloc (buf : buffer) (elements : Z) (ok : bool)
| Free (buf : buffer).

(** What the X server and the allocator answer: whether each request
    succeeds, the default screen, the size of the gamma ramps, the ramps in
    force ([server_ramp c i] is entry [i] of channel [c]) and the contents
    of freshly allocated memory. *)
Record environment : Type := mk_env {
  open_ok : bool;
  default_screen : Z;
  query_ok : bool;
  size_ok : bool;
  server_ramp_size : Z;
  malloc_ok : bool;
  junk : nat -> Z;
  get_ok : bool;
  server_ramp : channel -> nat -> Z
}.

(** [vidmode_state_t], the display pointer left out. *)
Record vidmode_state_t : Type := mk_state {
  screen_num : Z;
  ramp_size : Z;
  saved_ramps : list Z
}.

(** A block of [n] elements as [malloc] hands it out. *)
Definition fresh_buffer (junk : nat -> Z) (n : nat) : list Z :=
  map junk (seq 0 n).

(** Storing [vals] from the start of a block; the stores of the backend
    never run past the end of the block. *)
Fixpoint overwrite (vals buf : list Z) : list Z :=
  match vals, buf with
  | v :: vals', _ :: buf' => v :: overwrite vals' buf'
  | _, _ => buf
  end.

(** Storing [vals] through the pointer [&buf[off]]. *)
Fixpoint write_at (off : nat) (vals buf : list Z) : list Z :=
  match off, buf with
  | O, _ => overwrite vals buf
  | S off', x :: buf' => x :: write_at off' vals buf'
  | S _, [] => []
  end.

(** The [n] elements read through the pointer [&buf[off]]. *)
Definition slice (off n : nat) (buf : list Z) : list Z :=
  firstn n (skipn off buf).

(** The [size] entries of channel [c] that the server reports. *)
Definition server_entries (env : environment) (c : channel) (n : nat)
  : list Z :=
  map (server_ramp env c) (seq 0 n).

(** [vidmode_init]: the calls made and the state on success, [None] where
    it returns -1. *)
Definition vidmode_init (screen : Z) (env : environment)
  : list x_call * option vidmode_state_t :=
  if negb (open_ok env) then ([XOpenDisplay false], None)
  else
    let screen := if (screen <? 0)%Z then default_screen env else screen in
    if negb (query_ok env) then
      ([XOpenDisplay true; XF86VidModeQueryVersion; XCloseDisplay], None)
    else if negb (size_ok env) then
      ([XOpenDisplay true; XF86VidModeQueryVersion;
        XF86VidModeGetGammaRampSize screen; XCloseDisplay], None)
    else
      let size := server_ramp_size env in
      if (size =? 0)%Z then
        ([XOpenDisplay true; XF86VidModeQueryVersion;
          XF86VidModeGetGammaRampSize screen; XCloseDisplay], None)
      else if negb (malloc_ok env) then
        ([XOpenDisplay true; XF86VidModeQueryVersion;
          XF86VidModeGetGammaRampSize screen;
          Malloc SavedRamps (3 * size) false; XCloseDisplay], None)
      else if negb (get_ok env) then
        ([XOpenDisplay true; XF86VidModeQueryVersion;
          XF86VidModeGetGammaRampSize screen;
          Malloc SavedRamps (3 * size) true;
          XF86VidModeGetGammaRamp screen size; XCloseDisplay], None)
      else
        let n := Z.to_nat size in
        let buf := fresh_buffer (junk env) (3 * n) in
        let buf := write_at (0 * n) (server_entries env Red n) buf in
        let buf := write_at (1 * n) (server_entries env Green n) buf in
        let buf := write_at (2 * n) (server_entries env Blue n) buf in
        ([XOpenDisplay true; XF86VidModeQueryVersion;
          XF86VidModeGetGammaRampSize screen;
          Malloc SavedRamps (3 * size) true;
          XF86VidModeGetGammaRamp screen size],
         Some {| screen_num := screen; ramp_size := size;
                 saved_ramps := buf |}).

(** [vidmode_free] *)
Definition vidmode_free (st : vidmode_state_t) : list x_call :=
  [Free SavedRamps; XCloseDisplay].

(** [vidmode_restore]; a failure of the request is only reported. *)
Definition vidmode_restore (st : vidmode_state_t) : list x_call :=
  let n := Z.to_nat (ramp_size st) in
  [XF86VidModeSetGammaRamp (screen_num st) (ramp_size st)
     (slice (0 * n) n (saved_ramps st))
     (slice (1 * n) n (saved_ramps st))
     (slice (2 * n) n (saved_ramps st))].

Section SetTemperature.

(** [colorramp_fill] is outside the sources at hand:
    [colorramp_fill c size temp gamma] stands for the entries it stores for
    channel [c]. *)
Variable colorramp_fill : channel -> Z -> Z -> Q * Q * Q -> list Z.

(** [vidmode_set_temperature]: the calls made and the value returned.
    [alloc_ok] and [set_ok] tell whether [malloc] and the request to the
    server succeed; [fresh] is the contents of the block allocated. *)
Definition vidmode_set_temperature (st : vidmode_state_t) (temp : Z)
    (gamma : Q * Q * Q) (alloc_ok : bool) (fresh : nat -> Z) (set_ok : bool)
  : list x_call * Z :=
  let size := ramp_size st in
  if negb alloc_ok then ([Malloc GammaRamps (3 * size) false], (-1)%Z)
  else
    let n := Z.to_nat size in
    let buf := fresh_buffer fresh (3 * n) in
    let buf := write_at (0 * n) (colorramp_fill Red size temp gamma) buf in
    let buf := write_at (1 * n) (colorramp_fill Green size temp gamma) buf in
    let buf := write_at (2 * n) (colorramp_fill Blue size temp gamma) buf in
    let request :=
      XF86VidModeSetGammaRamp (screen_num st) size
        (slice (0 * n) n buf) (slice (1 * n) n buf) (slice (2 * n) n buf) in
    if negb set_ok then
      ([Malloc GammaRamps (3 * size) true; request; Free GammaRamps], (-1)%Z)
    else
      ([Malloc GammaRamps (3 * size) true; request; Free GammaRamps], 0%Z).

(** One use of the backend between [vidmode_init] and [vidmode_free]. *)
Record adjustment : Type := mk_adjustment {
  adj_temp : Z;
  adj_gamma : Q * Q * Q;
  adj_alloc_ok : bool;
  adj_fresh : nat -> Z;
  adj_set_ok : bool
}.

(** The calls of a whole session: the given adjustments after a successful
    init, then restore and free. *)
Definition session_calls (init_calls : list x_call) (st : vidmode_state_t)
    (uses : list adjustment) : list x_call :=
  init_calls
  ++ flat_map (fun u =>
                 fst (vidmode_set_temperature st (adj_temp u) (adj_gamma u)
                        (adj_alloc_ok u) (adj_fresh u) (adj_set_ok u)))
              uses
  ++ vidmode_restore st ++ vidmode_free st.

End SetTemperature.

(** Blocks allocated and not yet freed, and displays opened and not yet
    closed, after a sequence of calls. *)
Fixpoint blocks_held (calls : list x_call) : Z :=
  match calls with
  | [] => 0
  | Malloc _ _ true :: rest => 1 + blocks_held rest
  | Free _ :: rest => blocks_held rest - 1
  | _ :: rest => blocks_held rest
  end.

Fixpoint displays_held (calls : list x_call) : Z :=
  match calls with
  | [] => 0
  | XOpenDisplay true :: rest => 1 + displays_held rest
  | XCloseDisplay :: rest => displays_held rest - 1
  | _ :: rest => displays_held rest
  end.

End VidMode.

(** ** Fixtures for the options and the backends *)

(** A stand-in for [atoi] on unsigned decimal text: the value of the
    leading digits. *)
Definition digit_value (c : ascii) : option Z :=
  let n := nat_of_ascii c in
  if (48 <=? n)%nat && (n <=? 57)%nat then Some (Z.of_nat (n - 48)) else None.

Fixpoint decimal_from (acc : Z) (s : string) : Z :=
  match s with
  | EmptyString => acc
  | String c s' =>
      match digit_value c with
      | Some d => decimal_from (10 * acc + d) s'
      | None => acc
      end
  end.

Definition decimal_value (s : string) : Z := decimal_from 0 s.

(** An X server on which every request succeeds, with ramps of 4 entries
    [i -> 16384 * i] on every channel. *)
Definition friendly_server : VidMode.environment :=
  {| VidMode.open_ok := true;
     VidMode.default_screen := 0;
     VidMode.query_ok := true;
     VidMode.size_ok := true;
     VidMode.server_ramp_size := 4;
     VidMode.malloc_ok := true;
     VidMode.junk := fun _ => 0%Z;
     VidMode.get_ok := true;
     VidMode.server_ramp := fun _ i => (16384 * Z.of_nat i)%Z |}.

(** The same server, refusing to report its ramps. *)
Definition silent_server : VidMode.environment :=
  {| VidMode.open_ok := true;
     VidMode.default_screen := 0;
     VidMode.query_ok := true;
     VidMode.size_ok := true;
     VidMode.server_ramp_size := 4;
     VidMode.malloc_ok := true;
     VidMode.junk := fun _ => 0%Z;
     VidMode.get_ok := false;
     VidMode.server_ramp := fun _ i => (16384 * Z.of_nat i)%Z |}.

(** A ramp generator that stores the temperature in every entry. *)
Definition flat_ramp (c : VidMode.channel) (size temp : Z) (g : Q * Q * Q)
  : list Z :=
  repeat temp (Z.to_nat size).


(** ** Rounding to a floating-point format

    A finite [float] or [double] is the rational it denotes.  An operation
    on them yields the exact result rounded to the nearest number with 24,
    respectively 53, significant bits, ties going to the even significand
    (IEEE 754 binary32 and binary64 in the default rounding mode).  The
    exponent range is taken as unbounded: the quantities of the program
    (elevations in degrees, temperatures below 10000, clock readings in
    seconds) are far from overflow and underflow.  NaN and the infinities
    are left out. *)

(** [2^k] for an integer [k] of either sign. *)
Definition pow2 (k : Z) : Q := 2 ^ k.

(** The binary exponent of a positive [x]: the [e] with
    [2^e <= x < 2^(e+1)]. *)
Definition ilog2 (x : Q) : Z :=
  let k := (Z.log2 (Qnum x) - Z.log2 (Zpos (Qden x)))%Z in
  if Qle_bool (pow2 k) x then k else (k - 1)%Z.

(** The nearest integer, a tie going to the even one. *)
Definition nearest_even (x : Q) : Z :=
  let f := Qfloor x in
  let r := x - inject_Z f in
  if Qltb r (1 # 2) then f
  else if Qltb (1 # 2) r then (f + 1)%Z
  else if Z.even f then f else (f + 1)%Z.

(** A positive [x] rounded to [prec] significant bits. *)
Definition round_magnitude (prec : Z) (x : Q) : Q :=
  let e := (ilog2 x - (prec - 1))%Z in
  inject_Z (nearest_even (x / pow2 e)) * pow2 e.

Definition round_to (prec : Z) (x : Q) : Q :=
  match Qnum x with
  | Z0 => 0
  | Zpos _ => Qred (round_magnitude prec x)
  | Zneg _ => Qred (- round_magnitude prec (- x))
  end.

(** The value a [float] and a [double] take when given the exact result
    [x] of an operation, or the value of a wider type. *)
Definition to_float (x : Q) : Q := round_to 24 x.
Definition to_double (x : Q) : Q := round_to 53 x.

(** The largest relative error of the two roundings, [2^-24] and [2^-53]. *)
Definition float_roundoff : Q := 1 # 16777216.
Definition double_roundoff : Q := 1 # 9007199254740992.

(** ** The engine in floating point

    The arithmetic of [calculate_temp] and [do_continous] with every
    operation rounded as its C type has it: an operation between two
    [float]s (an [int] operand is converted to [float]) rounds to
    [float]; one with a [double] operand rounds to [double]; storing
    into the [float] variables [a] and [adjustment_alpha] rounds to
    [float].  An [int] converted to [double] is exact.  The flags, the
    signal checks and the end of a transition are those of the engine
    above. *)
Module Rounded.

Section Engine.

Variable SOLAR_CIVIL_TWILIGHT_ELEV : Q.
Variable solar_elevation : Q -> Q -> Q -> Q.

(** [#define TRANSITION_LOW SOLAR_CIVIL_TWILIGHT_ELEV] *)
Definition TRANSITION_LOW : Q := SOLAR_CIVIL_TWILIGHT_ELEV.

(** [float a = (TRANSITION_LOW - elevation) /
               (TRANSITION_LOW - TRANSITION_HIGH);]
    a subtraction and a division of [double]s, stored into a [float]. *)
Definition transition_fraction (elevation : Q) : Q :=
  to_float
    (to_double (to_double (TRANSITION_LOW - elevation)
                / to_double (TRANSITION_LOW - TRANSITION_HIGH))).

(** [calculate_temp]; in
    [temp = (1.0-a)*temp_night + a*temp_day;] the left product is one of
    [double]s, the right one of [float]s, their sum one of [double]s, and
    the assignment to [int temp] truncates. *)
Definition calculate_temp (elevation : Q) (temp_day temp_night : Z) : Z :=
  if Qltb elevation TRANSITION_LOW then temp_night
  else if Qltb elevation TRANSITION_HIGH then
    let a := transition_fraction elevation in
    double_to_int
      (to_double (to_double (to_double (1 - a) * inject_Z temp_night)
                  + to_float (a * to_float (inject_Z temp_day))))
  else temp_day.

(** [do_oneshot] *)
Definition do_oneshot (opts : rs_opts) (time : option Q) (set_ok : bool)
  : list event * run_result :=
  match time with
  | None => ([EvFree], Exited EXIT_FAILURE)
  | Some now =>
      let elevation := solar_elevation now (lat opts) (lon opts) in
      let temp := calculate_temp elevation (temp_day opts) (temp_night opts) in
      if set_ok then ([EvSetTemperature temp], Returned 0)
      else ([EvSetTemperature temp; EvFree], Exited EXIT_FAILURE)
  end.

(** [if (short_trans_create) { ... }]:
    [short_trans_end = now; short_trans_end += short_trans_len;] *)
Definition setup_transition (opts : rs_opts) (now : Q) (s : loop_state)
  : loop_state :=
  if short_trans_create s then
    if transition opts then
      {| short_trans_end := to_double (now + inject_Z (short_trans_len s));
         short_trans := true;
         short_trans_done := short_trans_done s;
         short_trans_create := false;
         short_trans_begin := short_trans_begin s;
         short_trans_len := short_trans_len s;
         adjustment_alpha := adjustment_alpha s;
         done := done s;
         disabled := disabled s |}
    else
      {| short_trans_end := short_trans_end s;
         short_trans := short_trans s;
         short_trans_done := true;
         short_trans_create := short_trans_create s;
         short_trans_begin := short_trans_begin s;
         short_trans_len := short_trans_len s;
         adjustment_alpha := adjustment_alpha s;
         done := done s;
         disabled := disabled s |}
  else s.

(** The three assignments to the [float adjustment_alpha] inside
    [if (short_trans)]:
    [adjustment_alpha = (end - start) / (float)short_trans_len;]
    [if (!short_trans_begin) adjustment_alpha = 1.0 - adjustment_alpha;]
    [adjustment_alpha = MAX(0.0, MIN(adjustment_alpha, 1.0));] *)
Definition fade_alpha (now : Q) (s : loop_state) : Q :=
  let a :=
    to_float (to_double (to_double (short_trans_end s - now)
                         / to_float (inject_Z (short_trans_len s)))) in
  let a := if negb (short_trans_begin s) then to_float (to_double (1 - a))
           else a in
  to_float (MAX 0 (MIN a 1)).

(** [if (short_trans) { ... }] *)
Definition ongoing_transition (now : Q) (s : loop_state) : loop_state :=
  if short_trans s then
    let over := Qltb (short_trans_end s) now in
    {| short_trans_end := short_trans_end s;
       short_trans := if over then false else short_trans s;
       short_trans_done := if over then true else short_trans_done s;
       short_trans_create := short_trans_create s;
       short_trans_begin := short_trans_begin s;
       short_trans_len := short_trans_len s;
       adjustment_alpha := fade_alpha now s;
       done := done s;
       disabled := disabled s |}
  else s.

(** [temp = adjustment_alpha*6500 + (1.0-adjustment_alpha)*temp;]
    the left product is one of [float]s, the right one and the sum are of
    [double]s, and the assignment to [int temp] truncates. *)
Definition blend (alpha : Q) (temp : Z) : Z :=
  double_to_int
    (to_double (to_float (alpha * to_float NEUTRAL_TEMP)
                + to_double (to_double (1 - alpha) * inject_Z temp))).

Definition armed_state (opts : rs_opts) (env : tick_env) (now : Q)
    (s : loop_state) : loop_state :=
  setup_transition opts now (poll_signals env s).

Definition tick_state (opts : rs_opts) (env : tick_env) (now : Q)
    (s : loop_state) : loop_state :=
  snd (handle_end (ongoing_transition now (armed_state opts env now s))).

Definition tick_restored (opts : rs_opts) (env : tick_env) (now : Q)
    (s : loop_state) : list event :=
  fst (handle_end (ongoing_transition now (armed_state opts env now s))).

Definition tick_temp (opts : rs_opts) (env : tick_env) (now : Q)
    (s : loop_state) : Z :=
  blend (adjustment_alpha (tick_state opts env now s))
        (calculate_temp (solar_elevation now (lat opts) (lon opts))
                        (temp_day opts) (temp_night opts)).

(** The body of [while (1)]. *)
Definition tick (opts : rs_opts) (env : tick_env) (s : loop_state)
  : list event * outcome :=
  let s := poll_signals env s in
  match env_time env with
  | None => ([EvFree], Fatal s)
  | Some now =>
      let s := setup_transition opts now s in
      let elevation := solar_elevation now (lat opts) (lon opts) in
      let temp := calculate_temp elevation (temp_day opts) (temp_night opts) in
      let s := ongoing_transition now s in
      let '(restored, s) := handle_end s in
      let temp := blend (adjustment_alpha s) temp in
      if done s && negb (short_trans s) then (restored, Break s)
      else if negb (disabled s) || short_trans s then
        if env_set_ok env then
          (restored ++ [EvSetTemperature temp; tick_sleep s], Continue s)
        else
          (restored ++ [EvSetTemperature temp; EvFree], Fatal s)
      else (restored ++ [tick_sleep s], Continue s)
  end.

(** The loop and what [do_continous] does after it. *)
Fixpoint loop (opts : rs_opts) (envs : list tick_env) (s : loop_state)
  : list event * run_result :=
  match envs with
  | [] => ([], Running)
  | env :: envs' =>
      let '(evs, o) := tick opts env s in
      match o with
      | Continue s' =>
          let '(evs', r) := loop opts envs' s' in (evs ++ evs', r)
      | Break _ => (evs ++ [EvRestore], Returned 0)
      | Fatal _ => (evs, Exited EXIT_FAILURE)
      end
  end.

Definition do_continous (opts : rs_opts) (envs : list tick_env)
  : list event * run_result :=
  loop opts envs init_state.

End Engine.

(** The scenario engine: the civil-twilight elevation of the
    specification, the sun at 10 degrees, Copenhagen. *)
Definition scenario_tick (tr : bool)
  : tick_env -> loop_state -> list event * outcome :=
  tick civil_twilight_elev daylight (scenario_opts tr).

Definition state_after (tr : bool) (envs : list tick_env) : loop_state :=
  fold_left (fun s env => outcome_state (snd (scenario_tick tr env s)))
            envs init_state.

End Rounded.

(** * Results *)

Lemma Qltb_lt (x y : Q) : Qltb x y = true <-> x < y.
Proof.
  unfold Qltb. rewrite negb_true_iff.
  split; intro H.
  - apply Qnot_le_lt. intro Hle. apply Qle_bool_iff in Hle. congruence.
  - apply not_true_is_false. intro Hle. apply Qle_bool_iff in Hle.
    apply (Qlt_not_le _ _ H Hle).
Qed.

Lemma Qltb_ge (x y : Q) : Qltb x y = false <-> y <= x.
Proof.
  unfold Qltb. rewrite negb_false_iff. apply Qle_bool_iff.
Qed.

Example calc_day : calculate_temp civil_twilight_elev 10 5500 3700 = 5500%Z.
Proof. reflexivity. Qed.

Example calc_night : calculate_temp civil_twilight_elev (-10) 5500 3700 = 3700%Z.
Proof. reflexivity. Qed.

Example calc_mid : calculate_temp civil_twilight_elev (-3) 5500 3700 = 4300%Z.
Proof. reflexivity. Qed.

(** ** Helper facts *)



Lemma MIN_cases (x y : Q) : (x < y /\ MIN x y = x) \/ (y <= x /\ MIN x y = y).
Proof.
  unfold MIN. destruct (Qltb x y) eqn:E.
  - left. split; [now apply Qltb_lt | reflexivity].
  - right. split; [now apply Qltb_ge | reflexivity].
Qed.

Lemma MAX_cases (x y : Q) : (y < x /\ MAX x y = x) \/ (x <= y /\ MAX x y = y).
Proof.
  unfold MAX. destruct (Qltb y x) eqn:E.
  - left. split; [now apply Qltb_lt | reflexivity].
  - right. split; [now apply Qltb_ge | reflexivity].
Qed.

(** The clamp of [do_continous] lands in the unit interval whatever it is
    given. *)
Lemma clamp_unit (a : Q) : 0 <= MAX 0 (MIN a 1) <= 1.
Proof.
  destruct (MIN_cases a 1) as [[H1 E1] | [H1 E1]]; rewrite E1;
  destruct (MAX_cases 0 a) as [[H2 E2] | [H2 E2]];
  destruct (MAX_cases 0 1) as [[H3 E3] | [H3 E3]];
  try rewrite E2; try rewrite E3; lra.
Qed.

(** ** The temperature model *)



(** ** The loop of [do_continous], step by step *)

Section LoopFacts.

Variable low : Q.
Variable solar_elevation : Q -> Q -> Q -> Q.
Variable opts : rs_opts.

(** *** Polling the signal flags *)

Lemma poll_quiet (env : tick_env) (s : loop_state) :
  sig_disable env = false -> sig_exiting env = false ->
  poll_signals env s = s.
Proof.
  intros Hd He. unfold poll_signals. rewrite Hd, He. reflexivity.
Qed.

Lemma poll_done (env : tick_env) (s : loop_state) :
  done (poll_signals env s) = done s || sig_exiting env.
Proof. destruct env as [fd fe ? ?]. by_flags s; reflexivity. Qed.

Lemma poll_disabled (env : tick_env) (s : loop_state) :
  disabled (poll_signals env s) = xorb (disabled s) (sig_disable env).
Proof. destruct env as [fd fe ? ?]. by_flags s; reflexivity. Qed.

Lemma poll_short_trans_done (env : tick_env) (s : loop_state) :
  short_trans_done (poll_signals env s) = short_trans_done s.
Proof. destruct env as [fd fe ? ?]. by_flags s; reflexivity. Qed.

Lemma poll_short_trans (env : tick_env) (s : loop_state) :
  short_trans (poll_signals env s)
  = short_trans s && negb (sig_exiting env && done s).
Proof. destruct env as [fd fe ? ?]. by_flags s; reflexivity. Qed.

Lemma poll_short_trans_create (env : tick_env) (s : loop_state) :
  short_trans_create (poll_signals env s)
  = short_trans_create s || sig_disable env
    || (sig_exiting env && negb (done s)
        && negb (xorb (disabled s) (sig_disable env))).
Proof. destruct env as [fd fe ? ?]. by_flags s; reflexivity. Qed.

Lemma poll_short_trans_end (env : tick_env) (s : loop_state) :
  short_trans_end (poll_signals env s) = short_trans_end s.
Proof. destruct env as [fd fe ? ?]. by_flags s; reflexivity. Qed.

Lemma poll_alpha_unit (env : tick_env) (s : loop_state) :
  0 <= adjustment_alpha s <= 1 ->
  0 <= adjustment_alpha (poll_signals env s) <= 1.
Proof.
  destruct env as [fd fe ? ?]. intro H. revert H. by_flags s; lra.
Qed.

(** *** Setting up a transition *)

Ltac by_setup s :=
  unfold setup_transition; destruct (transition opts); by_flags s.

Lemma setup_idle (now : Q) (s : loop_state) :
  short_trans_create s = false -> setup_transition opts now s = s.
Proof. intro H. unfold setup_transition. now rewrite H. Qed.

Lemma setup_done (now : Q) (s : loop_state) :
  done (setup_transition opts now s) = done s.
Proof. by_setup s; reflexivity. Qed.

Lemma setup_disabled (now : Q) (s : loop_state) :
  disabled (setup_transition opts now s) = disabled s.
Proof. by_setup s; reflexivity. Qed.

Lemma setup_alpha (now : Q) (s : loop_state) :
  adjustment_alpha (setup_transition opts now s) = adjustment_alpha s.
Proof. by_setup s; reflexivity. Qed.

Lemma setup_begin (now : Q) (s : loop_state) :
  short_trans_begin (setup_transition opts now s) = short_trans_begin s.
Proof. by_setup s; reflexivity. Qed.

Lemma setup_len (now : Q) (s : loop_state) :
  short_trans_len (setup_transition opts now s) = short_trans_len s.
Proof. by_setup s; reflexivity. Qed.

Lemma setup_short_trans (now : Q) (s : loop_state) :
  short_trans (setup_transition opts now s)
  = short_trans s || (short_trans_create s && transition opts).
Proof. by_setup s; reflexivity. Qed.

Lemma setup_short_trans_create (now : Q) (s : loop_state) :
  short_trans_create (setup_transition opts now s)
  = short_trans_create s && negb (transition opts).
Proof. by_setup s; reflexivity. Qed.

Lemma setup_short_trans_done (now : Q) (s : loop_state) :
  short_trans_done (setup_transition opts now s)
  = short_trans_done s || (short_trans_create s && negb (transition opts)).
Proof. by_setup s; reflexivity. Qed.

Lemma setup_short_trans_end (now : Q) (s : loop_state) :
  short_trans_create s = true -> transition opts = true ->
  short_trans_end (setup_transition opts now s)
  = now + inject_Z (short_trans_len s).
Proof.
  intros H T. unfold setup_transition. rewrite H, T. reflexivity.
Qed.

(** *** A transition in flight *)

Lemma ongoing_idle (now : Q) (s : loop_state) :
  short_trans s = false -> ongoing_transition now s = s.
Proof. intro H. unfold ongoing_transition. now rewrite H. Qed.

Lemma ongoing_done (now : Q) (s : loop_state) :
  done (ongoing_transition now s) = done s.
Proof. by_flags s; reflexivity. Qed.

Lemma ongoing_disabled (now : Q) (s : loop_state) :
  disabled (ongoing_transition now s) = disabled s.
Proof. by_flags s; reflexivity. Qed.

Lemma ongoing_short_trans_create (now : Q) (s : loop_state) :
  short_trans_create (ongoing_transition now s) = short_trans_create s.
Proof. by_flags s; reflexivity. Qed.

Lemma ongoing_short_trans (now : Q) (s : loop_state) :
  short_trans (ongoing_transition now s)
  = short_trans s && negb (Qltb (short_trans_end s) now).
Proof.
  unfold ongoing_transition.
  destruct (short_trans s) eqn:E; proj_simpl; [| exact E].
  now destruct (Qltb (short_trans_end s) now).
Qed.

Lemma ongoing_short_trans_done (now : Q) (s : loop_state) :
  short_trans_done (ongoing_transition now s)
  = short_trans_done s || (short_trans s && Qltb (short_trans_end s) now).
Proof.
  unfold ongoing_transition.
  destruct (short_trans s) eqn:E; proj_simpl.
  - destruct (Qltb (short_trans_end s) now), (short_trans_done s); reflexivity.
  - now rewrite orb_false_r.
Qed.

Lemma ongoing_alpha (now : Q) (s : loop_state) :
  adjustment_alpha (ongoing_transition now s)
  = if short_trans s then fade_alpha now s else adjustment_alpha s.
Proof.
  unfold ongoing_transition. now destruct (short_trans s).
Qed.

(** *** The end of a transition *)

Lemma handle_end_events (s : loop_state) :
  fst (handle_end s)
  = if short_trans_done s && disabled s then [EvRestore] else [].
Proof. by_flags s; reflexivity. Qed.

Lemma handle_end_short_trans_done (s : loop_state) :
  short_trans_done (snd (handle_end s)) = false.
Proof. by_flags s; reflexivity. Qed.

Lemma handle_end_done (s : loop_state) :
  done (snd (handle_end s)) = done s.
Proof. by_flags s; reflexivity. Qed.

Lemma handle_end_disabled (s : loop_state) :
  disabled (snd (handle_end s)) = disabled s.
Proof. by_flags s; reflexivity. Qed.

Lemma handle_end_short_trans (s : loop_state) :
  short_trans (snd (handle_end s)) = short_trans s.
Proof. by_flags s; reflexivity. Qed.

Lemma handle_end_short_trans_create (s : loop_state) :
  short_trans_create (snd (handle_end s)) = short_trans_create s.
Proof. by_flags s; reflexivity. Qed.

Lemma handle_end_alpha (s : loop_state) :
  adjustment_alpha (snd (handle_end s)) = adjustment_alpha s.
Proof. by_flags s; reflexivity. Qed.

(** *** The state an iteration decides in *)

Lemma tick_state_done (env : tick_env) (now : Q) (s : loop_state) :
  done (tick_state opts env now s) = done s || sig_exiting env.
Proof.
  unfold tick_state.
  now rewrite handle_end_done, ongoing_done, setup_done, poll_done.
Qed.

Lemma tick_state_disabled (env : tick_env) (now : Q) (s : loop_state) :
  disabled (tick_state opts env now s) = xorb (disabled s) (sig_disable env).
Proof.
  unfold tick_state.
  now rewrite handle_end_disabled, ongoing_disabled, setup_disabled,
    poll_disabled.
Qed.

Lemma tick_state_short_trans_done (env : tick_env) (now : Q) (s : loop_state) :
  short_trans_done (tick_state opts env now s) = false.
Proof. unfold tick_state. apply handle_end_short_trans_done. Qed.

Lemma tick_state_short_trans (env : tick_env) (now : Q) (s : loop_state) :
  short_trans (tick_state opts env now s)
  = short_trans (armed_state opts env now s)
    && negb (Qltb (short_trans_end (armed_state opts env now s)) now).
Proof.
  unfold tick_state, armed_state.
  now rewrite handle_end_short_trans, ongoing_short_trans.
Qed.

Lemma tick_state_short_trans_create (env : tick_env) (now : Q) (s : loop_state) :
  short_trans_create (tick_state opts env now s)
  = short_trans_create (poll_signals env s) && negb (transition opts).
Proof.
  unfold tick_state.
  now rewrite handle_end_short_trans_create, ongoing_short_trans_create,
    setup_short_trans_create.
Qed.

Lemma tick_state_alpha (env : tick_env) (now : Q) (s : loop_state) :
  adjustment_alpha (tick_state opts env now s)
  = if short_trans (armed_state opts env now s)
    then fade_alpha now (armed_state opts env now s)
    else adjustment_alpha (poll_signals env s).
Proof.
  unfold tick_state, armed_state.
  rewrite handle_end_alpha, ongoing_alpha.
  destruct (short_trans _); [reflexivity | apply setup_alpha].
Qed.

Lemma tick_restored_cases (env : tick_env) (now : Q) (s : loop_state) :
  tick_restored opts env now s
  = if short_trans_done (ongoing_transition now (armed_state opts env now s))
       && disabled (tick_state opts env now s)
    then [EvRestore] else [].
Proof.
  unfold tick_restored, tick_state, armed_state.
  now rewrite handle_end_events, handle_end_disabled.
Qed.

(** *** The iteration as a whole *)

Lemma tick_clock_failure (env : tick_env) (s : loop_state) :
  env_time env = None ->
  tick low solar_elevation opts env s = ([EvFree], Fatal (poll_signals env s)).
Proof. intro H. unfold tick. now rewrite H. Qed.

Lemma tick_clock_read (env : tick_env) (now : Q) (s : loop_state) :
  env_time env = Some now ->
  tick low solar_elevation opts env s
  = let s' := tick_state opts env now s in
    let restored := tick_restored opts env now s in
    let temp := tick_temp low solar_elevation opts env now s in
    if done s' && negb (short_trans s') then (restored, Break s')
    else if negb (disabled s') || short_trans s' then
      if env_set_ok env then
        (restored ++ [EvSetTemperature temp; tick_sleep s'], Continue s')
      else
        (restored ++ [EvSetTemperature temp; EvFree], Fatal s')
    else (restored ++ [tick_sleep s'], Continue s').
Proof.
  intro H. unfold tick, tick_temp, tick_restored, tick_state, armed_state.
  rewrite H.
  destruct (handle_end _) as [restored s']. reflexivity.
Qed.

(** *** The invariant of the loop *)

Lemma loop_inv_init : loop_inv opts init_state.
Proof.
  unfold loop_inv, init_state; proj_simpl.
  split; [| split; [| split]]; auto. lra.
Qed.

Lemma fade_alpha_unit (now : Q) (s : loop_state) : 0 <= fade_alpha now s <= 1.
Proof. unfold fade_alpha. apply clamp_unit. Qed.

Lemma armed_short_trans_without_transitions (env : tick_env) (now : Q)
    (s : loop_state) :
  transition opts = false -> short_trans s = false ->
  short_trans (armed_state opts env now s) = false.
Proof.
  intros T H. unfold armed_state.
  rewrite setup_short_trans, poll_short_trans, H, T.
  now rewrite andb_false_r.
Qed.

Lemma loop_inv_tick_state (env : tick_env) (now : Q) (s : loop_state) :
  loop_inv opts s -> loop_inv opts (tick_state opts env now s).
Proof.
  intros (I1 & I2 & I3 & I4). unfold loop_inv.
  split; [| split; [| split]].
  - apply tick_state_short_trans_done.
  - intros T H. rewrite tick_state_short_trans_create, T in H.
    rewrite andb_false_r in H. discriminate.
  - intro T. rewrite tick_state_short_trans.
    rewrite armed_short_trans_without_transitions; auto.
  - rewrite tick_state_alpha.
    destruct (short_trans (armed_state opts env now s)).
    + apply fade_alpha_unit.
    + now apply poll_alpha_unit.
Qed.

Lemma tick_outcome_state (env : tick_env) (now : Q) (s : loop_state) :
  env_time env = Some now ->
  outcome_state (snd (tick low solar_elevation opts env s))
  = tick_state opts env now s.
Proof.
  intro H. rewrite (tick_clock_read env now s H). cbv zeta.
  destruct (done _ && negb _); [reflexivity |].
  destruct (negb _ || _); [| reflexivity].
  destruct (env_set_ok env); reflexivity.
Qed.

Lemma tick_continue (env : tick_env) (s : loop_state) (evs : list event)
    (s' : loop_state) :
  tick low solar_elevation opts env s = (evs, Continue s') ->
  exists now, env_time env = Some now /\ s' = tick_state opts env now s.
Proof.
  intro H. destruct (env_time env) as [now |] eqn:E.
  - exists now. split; [reflexivity |].
    rewrite <- (tick_outcome_state env now s E), H. reflexivity.
  - rewrite (tick_clock_failure env s E) in H. discriminate.
Qed.

Lemma reachable_inv (s : loop_state) :
  reachable low solar_elevation opts s -> loop_inv opts s.
Proof.
  induction 1 as [| s env evs s' _ IH Ht].
  - apply loop_inv_init.
  - destruct (tick_continue env s evs s' Ht) as (now & _ & ->).
    now apply loop_inv_tick_state.
Qed.

(** An iteration that restores the saved ramps ends disabled and with no
    transition in flight. *)
Lemma restored_idle (env : tick_env) (now : Q) (s : loop_state) :
  loop_inv opts s ->
  tick_restored opts env now s <> [] ->
  disabled (tick_state opts env now s) = true /\
  short_trans (tick_state opts env now s) = false.
Proof.
  intros (I1 & I2 & I3 & I4) H.
  rewrite tick_restored_cases in H.
  destruct (short_trans_done
              (ongoing_transition now (armed_state opts env now s))) eqn:D;
    [| now contradiction H].
  destruct (disabled (tick_state opts env now s)) eqn:Dis;
    [| now contradiction H].
  split; [reflexivity |].
  destruct (transition opts) eqn:T.
  - rewrite tick_state_short_trans.
    rewrite ongoing_short_trans_done in D. unfold armed_state in D at 1.
    rewrite setup_short_trans_done, poll_short_trans_done, I1, T in D.
    rewrite andb_false_r in D. cbn [orb] in D.
    apply andb_prop in D. destruct D as [D1 D2].
    now rewrite D1, D2.
  - rewrite tick_state_short_trans.
    rewrite armed_short_trans_without_transitions; auto.
Qed.

Lemma tick_restored_shape (env : tick_env) (now : Q) (s : loop_state) :
  tick_restored opts env now s = [] \/ tick_restored opts env now s = [EvRestore].
Proof.
  rewrite tick_restored_cases. destruct (_ && _); auto.
Qed.

(** *** What an iteration emits *)

Lemma restored_sets_no_temperature (env : tick_env) (now : Q) (s : loop_state) :
  existsb is_set_temperature (tick_restored opts env now s) = false.
Proof.
  destruct (tick_restored_shape env now s) as [-> | ->]; reflexivity.
Qed.

Lemma restored_frees_nothing (env : tick_env) (now : Q) (s : loop_state) :
  ~ In EvFree (tick_restored opts env now s).
Proof.
  destruct (tick_restored_shape env now s) as [-> | ->]; cbn; intuition discriminate.
Qed.

Lemma tick_sleep_not_free (s : loop_state) : tick_sleep s <> EvFree.
Proof. unfold tick_sleep. destruct (short_trans s); discriminate. Qed.

Lemma tick_continue_frees_nothing (env : tick_env) (s : loop_state)
    (evs : list event) (s' : loop_state) :
  tick low solar_elevation opts env s = (evs, Continue s') ->
  ~ In EvFree evs.
Proof.
  intro H. destruct (tick_continue env s evs s' H) as (now & E & _).
  rewrite (tick_clock_read env now s E) in H. cbv zeta in H.
  assert (R := restored_frees_nothing env now s).
  assert (Sl := tick_sleep_not_free (tick_state opts env now s)).
  destruct (done _ && negb _); [discriminate |].
  destruct (negb _ || _).
  - destruct (env_set_ok env); [| discriminate].
    injection H as <- _. intro Hin. apply in_app_or in Hin.
    destruct Hin as [Hin | [Hin | [Hin | []]]]; auto; discriminate.
  - injection H as <- _. intro Hin. apply in_app_or in Hin.
    destruct Hin as [Hin | [Hin | []]]; auto.
Qed.

Lemma tick_fatal_events (env : tick_env) (s : loop_state)
    (evs : list event) (s' : loop_state) :
  loop_inv opts s ->
  tick low solar_elevation opts env s = (evs, Fatal s') ->
  evs = [EvFree] \/ exists t, evs = [EvSetTemperature t; EvFree].
Proof.
  intros I H. destruct (env_time env) as [now |] eqn:E.
  - rewrite (tick_clock_read env now s E) in H. cbv zeta in H.
    destruct (done _ && negb _); [discriminate |].
    destruct (negb _ || _) eqn:G.
    + destruct (env_set_ok env); [discriminate |].
      injection H as <- _. right.
      destruct (tick_restored_shape env now s) as [R | R].
      * rewrite R. eexists. reflexivity.
      * destruct (restored_idle env now s I) as [D S].
        { rewrite R. discriminate. }
        rewrite D, S in G. discriminate.
    + discriminate.
  - rewrite (tick_clock_failure env s E) in H.
    injection H as <- _. now left.
Qed.

Lemma loop_fatal (envs : list tick_env) :
  forall (s : loop_state) (evs : list event) (st : Z),
    loop_inv opts s ->
    loop low solar_elevation opts envs s = (evs, Exited st) ->
    st = EXIT_FAILURE /\
    exists before last,
      evs = before ++ last /\
      ~ In EvFree before /\
      (last = [EvFree] \/ exists t, last = [EvSetTemperature t; EvFree]).
Proof.
  induction envs as [| env envs IH]; intros s evs st I H; cbn [loop] in H.
  - discriminate.
  - destruct (tick low solar_elevation opts env s) as [evs0 o] eqn:Ht.
    destruct o as [s' | s' | s'].
    + destruct (loop low solar_elevation opts envs s') as [evs1 r] eqn:Hl.
      injection H as <- ->.
      destruct (tick_continue env s evs0 s' Ht) as (now & _ & Hs).
      assert (I' : loop_inv opts s') by (subst s'; now apply loop_inv_tick_state).
      destruct (IH s' evs1 st I' Hl) as (Hst & before & last & -> & Hb & Hlast).
      split; [exact Hst |].
      exists (evs0 ++ before), last. rewrite app_assoc.
      split; [reflexivity |]. split; [| exact Hlast].
      intro Hin. apply in_app_or in Hin. destruct Hin as [Hin | Hin]; auto.
      now apply (tick_continue_frees_nothing env s evs0 s' Ht).
    + discriminate.
    + injection H as <- <-. split; [reflexivity |].
      exists [], evs0. split; [reflexivity |]. split; [intros [] |].
      now apply (tick_fatal_events env s evs0 s' I Ht).
Qed.

(** C1, as the code has it: on a fatal error, be it the clock or the
    backend that fails, in one-shot mode and in the loop alike, the
    program calls [gamma_state_free] once and exits with failure; the
    step that fails makes no [gamma_state_restore], so its backend calls
    are [free] alone or [set_temperature] then [free]. *)
Theorem fatal_exit_frees_without_restore :
  (forall time set_ok evs st,
     do_oneshot low solar_elevation opts time set_ok = (evs, Exited st) ->
     st = EXIT_FAILURE /\
     (evs = [EvFree] \/ exists t, evs = [EvSetTemperature t; EvFree])) /\
  (forall env s evs s',
     reachable low solar_elevation opts s ->
     tick low solar_elevation opts env s = (evs, Fatal s') ->
     evs = [EvFree] \/ exists t, evs = [EvSetTemperature t; EvFree]) /\
  (forall envs evs st,
     do_continous low solar_elevation opts envs = (evs, Exited st) ->
     st = EXIT_FAILURE /\
     exists before last,
       evs = before ++ last /\
       ~ In EvFree before /\
       (last = [EvFree] \/ exists t, last = [EvSetTemperature t; EvFree])).
Proof.
  split; [| split].
  - intros time set_ok evs st H. unfold do_oneshot in H.
    destruct time as [now |].
    + destruct set_ok; [discriminate |].
      injection H as <- <-. split; [reflexivity |]. right. eexists. reflexivity.
    + injection H as <- <-. split; [reflexivity |]. now left.
  - intros env s evs s' R H.
    apply (tick_fatal_events env s evs s' (reachable_inv s R) H).
  - intros envs evs st H.
    apply (loop_fatal envs init_state evs st loop_inv_init H).
Qed.

(** C6: the value written to [adjustment_alpha] by a transition in flight
    lies in [0,1] whatever the clock reads, and so does the value the
    variable holds at the end of every iteration of the loop. *)
Theorem fade_fraction_clamped :
  (forall now s,
     short_trans s = true ->
     0 <= adjustment_alpha (ongoing_transition now s) <= 1) /\
  (forall env s,
     reachable low solar_elevation opts s ->
     0 <= adjustment_alpha
            (outcome_state (snd (tick low solar_elevation opts env s))) <= 1).
Proof.
  split.
  - intros now s H. rewrite ongoing_alpha, H. apply fade_alpha_unit.
  - intros env s R. apply reachable_inv in R.
    destruct (env_time env) as [now |] eqn:E.
    + rewrite (tick_outcome_state env now s E).
      apply (loop_inv_tick_state env now s R).
    + rewrite (tick_clock_failure env s E). cbn [snd outcome_state].
      apply poll_alpha_unit. apply R.
Qed.

(** C10: an iteration that reaches its backend call disabled and with no
    transition in flight makes no [set_temperature] call; in particular
    none is made from a disabled, idle state of the loop when no disable
    signal is pending. *)
Theorem disabled_idle_sets_no_temperature (env : tick_env) (s : loop_state) :
  (disabled (outcome_state (snd (tick low solar_elevation opts env s))) = true ->
   short_trans (outcome_state (snd (tick low solar_elevation opts env s))) = false ->
   existsb is_set_temperature (fst (tick low solar_elevation opts env s)) = false) /\
  (reachable low solar_elevation opts s ->
   disabled s = true -> short_trans s = false -> sig_disable env = false ->
   existsb is_set_temperature (fst (tick low solar_elevation opts env s)) = false).
Proof.
  assert (Main : forall now, env_time env = Some now ->
            disabled (tick_state opts env now s) = true ->
            short_trans (tick_state opts env now s) = false ->
            existsb is_set_temperature
              (fst (tick low solar_elevation opts env s)) = false).
  { intros now E D S. rewrite (tick_clock_read env now s E). cbv zeta.
    rewrite D, S. cbn [negb orb andb].
    destruct (done _ && true); cbn [fst].
    - apply restored_sets_no_temperature.
    - rewrite existsb_app, restored_sets_no_temperature.
      unfold tick_sleep. rewrite S. reflexivity. }
  split.
  - destruct (env_time env) as [now |] eqn:E.
    + rewrite (tick_outcome_state env now s E). apply (Main now eq_refl).
    + intros _ _. rewrite (tick_clock_failure env s E). reflexivity.
  - intros R D S Hd. destruct (reachable_inv s R) as (I1 & I2 & I3 & I4).
    destruct (env_time env) as [now |] eqn:E.
    + apply (Main now eq_refl).
      * rewrite tick_state_disabled, D, Hd. reflexivity.
      * rewrite tick_state_short_trans. unfold armed_state.
        rewrite setup_short_trans, poll_short_trans, S.
        rewrite poll_short_trans_create, D, Hd. cbn [andb orb xorb negb].
        rewrite andb_false_r, orb_false_r, orb_false_r.
        destruct (transition opts) eqn:T, (short_trans_create s) eqn:C;
          try reflexivity.
        destruct (I2 eq_refl eq_refl) as [_ Dis]. congruence.
    + rewrite (tick_clock_failure env s E). reflexivity.
Qed.

(** *** Signals *)




(** C7, as the code has it: when the exit flag is found set with [done]
    already set, no disable flag is pending and the clock can be read, the
    iteration leaves the loop at once, whatever remains of the fade, with
    no [set_temperature] call, and [do_continous] makes its final
    [gamma_state_restore] and returns 0. *)
Theorem second_stop_ends_loop (env : tick_env) (now : Q) (s : loop_state)
    (rest : list tick_env) :
  reachable low solar_elevation opts s ->
  done s = true ->
  sig_exiting env = true -> sig_disable env = false ->
  env_time env = Some now ->
  exists evs s',
    tick low solar_elevation opts env s = (evs, Break s') /\
    short_trans s' = false /\
    existsb is_set_temperature evs = false /\
    loop low solar_elevation opts (env :: rest) s
      = (evs ++ [EvRestore], Returned 0).
Proof.
  intros R D He Hd E. destruct (reachable_inv s R) as (I1 & I2 & I3 & I4).
  assert (A : short_trans (armed_state opts env now s) = false).
  { unfold armed_state.
    rewrite setup_short_trans, poll_short_trans, poll_short_trans_create.
    rewrite He, Hd, D. cbn [andb negb orb]. rewrite andb_false_r, !orb_false_r.
    destruct (transition opts) eqn:T, (short_trans_create s) eqn:C;
      try reflexivity.
    destruct (I2 eq_refl eq_refl) as [Dn _]. congruence. }
  assert (S : short_trans (tick_state opts env now s) = false).
  { rewrite tick_state_short_trans, A. reflexivity. }
  assert (Dn : done (tick_state opts env now s) = true).
  { rewrite tick_state_done, D. reflexivity. }
  assert (Ht : tick low solar_elevation opts env s
               = (tick_restored opts env now s,
                  Break (tick_state opts env now s))).
  { rewrite (tick_clock_read env now s E). cbv zeta. now rewrite Dn, S. }
  exists (tick_restored opts env now s), (tick_state opts env now s).
  split; [exact Ht |]. split; [exact S |].
  split; [apply restored_sets_no_temperature |].
  cbn [loop]. rewrite Ht. reflexivity.
Qed.

(** *** Disabling and enabling *)

Lemma armed_quiet (env : tick_env) (now : Q) (s : loop_state) :
  sig_disable env = false -> sig_exiting env = false ->
  short_trans_create s = false ->
  armed_state opts env now s = s.
Proof.
  intros Hd He C. unfold armed_state.
  rewrite (poll_quiet env s Hd He). now apply setup_idle.
Qed.





End LoopFacts.

(** ** The gamma argument *)

Local Open Scope string_scope.

Lemma strchr_first (c : ascii) (r rest : string) :
  strchr r c = None ->
  strchr (r ++ String c rest) c = Some (String.length r).
Proof.
  induction r as [| a r IH]; cbn [strchr append String.length]; intro H.
  - now rewrite Ascii.eqb_refl.
  - destruct (Ascii.eqb a c); [discriminate |].
    destruct (strchr r c); [discriminate |].
    now rewrite IH.
Qed.

Lemma str_take_prefix (r rest : string) :
  str_take (String.length r) (r ++ rest) = r.
Proof.
  induction r as [| a r IH]; cbn [str_take append String.length].
  - reflexivity.
  - now rewrite IH.
Qed.

Lemma str_drop_prefix (c : ascii) (r rest : string) :
  str_drop (S (String.length r)) (r ++ String c rest) = rest.
Proof.
  induction r as [| a r IH]; cbn [str_drop append String.length].
  - reflexivity.
  - exact IH.
Qed.

(** C9: for an argument [r:g:b], where [r] and [g] hold no colon, slot 0
    of the gamma array receives the value of [r], slot 1 that of [g] and
    slot 2 that of [b]. *)
Theorem parse_gamma_positional (atof : string -> Q) (r g b : string) :
  strchr r ":" = None ->
  strchr g ":" = None ->
  exists gm,
    parse_gamma atof (r ++ ":" ++ g ++ ":" ++ b) = Some gm /\
    gamma_slot 0 gm = atof r /\
    gamma_slot 1 gm = atof g /\
    gamma_slot 2 gm = atof b.
Proof.
  intros Hr Hg. exists (atof r, atof g, atof b).
  split; [| now repeat split].
  unfold parse_gamma. cbn [append].
  rewrite (strchr_first ":" r _ Hr).
  rewrite str_take_prefix, str_drop_prefix.
  rewrite (strchr_first ":" g _ Hg).
  now rewrite str_take_prefix, str_drop_prefix.
Qed.

Lemma parse_gamma_positional_witness :
  exists gm,
    parse_gamma text_length "1.0:0.85:2" = Some gm /\
    gamma_slot 0 gm = text_length "1.0" /\
    gamma_slot 1 gm = text_length "0.85" /\
    gamma_slot 2 gm = text_length "2".
Proof.
  apply (parse_gamma_positional text_length "1.0" "0.85" "2"); reflexivity.
Defined.

Example parse_gamma_single :
  parse_gamma text_length "0.85" = Some (4, 4, 4).
Proof. reflexivity. Qed.

Example parse_gamma_two_parts : parse_gamma text_length "1.0:0.85" = None.
Proof. reflexivity. Qed.

Local Close Scope string_scope.

(** ** Scenarios *)

(** A whole run: start-up fade, steady state, disable, enable, stop. *)
Example full_run :
  scenario_run true
    [env_quiet 0; env_quiet 5; env_quiet 11; env_quiet 16;
     env_disable 20; env_quiet 21; env_quiet (221 # 10); env_quiet 27;
     env_disable 30; env_quiet 31; env_quiet 33; env_quiet 38;
     env_stop 40; env_quiet 41; env_quiet 43]
  = ([EvSetTemperature 6500; EvSleep 100000;
      EvSetTemperature 6000; EvSleep 100000;
      EvSetTemperature 5500; EvSleep 5000000;
      EvSetTemperature 5500; EvSleep 5000000;
      EvSetTemperature 5500; EvSleep 100000;
      EvSetTemperature 6000; EvSleep 100000;
      EvRestore; EvSleep 5000000;
      EvSleep 5000000;
      EvSetTemperature 6500; EvSleep 100000;
      EvSetTemperature 6000; EvSleep 100000;
      EvSetTemperature 5500; EvSleep 5000000;
      EvSetTemperature 5500; EvSleep 5000000;
      EvSetTemperature 5500; EvSleep 100000;
      EvSetTemperature 6000; EvSleep 100000;
      EvRestore],
     Returned 0).
Proof. vm_compute. reflexivity. Qed.

Lemma reachable_step (tr : bool) (envs : list tick_env) (env : tick_env) :
  scenario_reachable tr (state_after tr envs) ->
  (exists s', snd (scenario_tick tr env (state_after tr envs)) = Continue s') ->
  scenario_reachable tr (state_after tr (envs ++ [env])).
Proof.
  intros R [s' H]. unfold state_after. rewrite fold_left_app. cbn [fold_left].
  fold (state_after tr envs).
  apply (reach_tick _ _ _ (state_after tr envs) env
           (fst (scenario_tick tr env (state_after tr envs))) _ R).
  unfold scenario_tick in *.
  destruct (tick _ _ _ env (state_after tr envs)) as [evs o].
  cbn [fst snd] in *. subst o. reflexivity.
Qed.

Lemma reachable_after_stop :
  scenario_reachable true (state_after true [env_stop 0]).
Proof.
  apply (reachable_step true [] (env_stop 0)); [apply reach_init |].
  eexists. vm_compute. reflexivity.
Qed.

Lemma reachable_after_disable :
  scenario_reachable true (state_after true [env_disable 0]).
Proof.
  apply (reachable_step true [] (env_disable 0)); [apply reach_init |].
  eexists. vm_compute. reflexivity.
Qed.

Lemma reachable_disabled_idle :
  scenario_reachable true (state_after true [env_disable 0; env_quiet 3]).
Proof.
  apply (reachable_step true [env_disable 0] (env_quiet 3));
    [apply reachable_after_disable |].
  eexists. vm_compute. reflexivity.
Qed.

(** *** Fatal errors (C1) *)

Lemma fatal_exit_frees_without_restore_witness :
  (EXIT_FAILURE = EXIT_FAILURE /\
   ([EvFree] = [EvFree] \/
    exists t, [EvFree] = [EvSetTemperature t; EvFree])) /\
  ([EvSetTemperature 6500; EvFree] = [EvFree] \/
   exists t, [EvSetTemperature 6500; EvFree] = [EvSetTemperature t; EvFree]) /\
  (EXIT_FAILURE = EXIT_FAILURE /\
   exists before last,
     [EvSetTemperature 6500; EvSleep 100000; EvFree] = before ++ last /\
     ~ In EvFree before /\
     (last = [EvFree] \/ exists t, last = [EvSetTemperature t; EvFree])).
Proof.
  destruct (fatal_exit_frees_without_restore
              civil_twilight_elev daylight (scenario_opts true))
    as (H1 & H2 & H3).
  split; [| split].
  - apply (H1 None true). reflexivity.
  - apply (H2 (env_backend_failure 0) init_state _
              (state_after true [env_backend_failure 0])).
    + apply reach_init.
    + vm_compute. reflexivity.
  - apply (H3 [env_quiet 0; env_clock_failure]). vm_compute. reflexivity.
Defined.

(** C1 as stated fails: on each of the four fatal paths the backend is
    freed and no restore is made. *)
Lemma fatal_exit_skips_restore :
  scenario_oneshot true None true = ([EvFree], Exited EXIT_FAILURE) /\
  scenario_oneshot true (Some 0) false
    = ([EvSetTemperature 5500; EvFree], Exited EXIT_FAILURE) /\
  scenario_run true [env_quiet 0; env_clock_failure]
    = ([EvSetTemperature 6500; EvSleep 100000; EvFree], Exited EXIT_FAILURE) /\
  scenario_run true [env_quiet 0; env_backend_failure 5]
    = ([EvSetTemperature 6500; EvSleep 100000; EvSetTemperature 6000; EvFree],
       Exited EXIT_FAILURE) /\
  existsb is_restore (fst (scenario_oneshot true None true)) = false /\
  existsb is_restore (fst (scenario_oneshot true (Some 0) false)) = false /\
  existsb is_restore
    (fst (scenario_run true [env_quiet 0; env_clock_failure])) = false /\
  existsb is_restore
    (fst (scenario_run true [env_quiet 0; env_backend_failure 5])) = false.
Proof. vm_compute. repeat split. Qed.

(** *** The fade fraction (C6) *)

Lemma fade_fraction_clamped_witness :
  0 <= adjustment_alpha
         (ongoing_transition 100 (state_after true [env_quiet 0])) <= 1 /\
  0 <= adjustment_alpha
         (outcome_state (snd (scenario_tick true (env_quiet 0) init_state)))
    <= 1.
Proof.
  destruct (fade_fraction_clamped
              civil_twilight_elev daylight (scenario_opts true))
    as (H1 & H2).
  split.
  - apply (H1 100 (state_after true [env_quiet 0])). reflexivity.
  - apply (H2 (env_quiet 0) init_state). apply reach_init.
Defined.

(** *** Stopping (C7) *)

Lemma second_stop_ends_loop_witness :
  exists evs s',
    scenario_tick true (env_stop (1 # 10)) (state_after true [env_stop 0])
      = (evs, Break s') /\
    short_trans s' = false /\
    existsb is_set_temperature evs = false /\
    scenario_loop true [env_stop (1 # 10)] (state_after true [env_stop 0])
      = (evs ++ [EvRestore], Returned 0).
Proof.
  apply (second_stop_ends_loop
           civil_twilight_elev daylight (scenario_opts true)
           (env_stop (1 # 10)) (1 # 10) (state_after true [env_stop 0]) []);
    try reflexivity.
  apply reachable_after_stop.
Defined.

(** C7 as stated fails in two ways.  After a first stop at time 0 the loop
    fades with [done] set.  If the second stop comes together with a
    disable signal, the iteration starts a new transition and the loop goes
    on; if the clock cannot be read on that iteration, the program frees
    the backend and exits without a restore. *)
Lemma second_stop_may_not_end_loop :
  scenario_reachable true (state_after true [env_stop 0]) /\
  done (state_after true [env_stop 0]) = true /\
  short_trans (state_after true [env_stop 0]) = true /\
  scenario_loop true [env_stop_disable (1 # 10)] (state_after true [env_stop 0])
    = ([EvSetTemperature 5500; EvSleep 100000], Running) /\
  short_trans (state_after true [env_stop 0; env_stop_disable (1 # 10)]) = true /\
  scenario_loop true
    [{| sig_disable := false; sig_exiting := true;
        env_time := None; env_set_ok := true |}]
    (state_after true [env_stop 0])
    = ([EvFree], Exited EXIT_FAILURE).
Proof.
  split; [apply reachable_after_stop |].
  vm_compute. repeat split.
Qed.

(** *** Disabling and enabling (C8, C10) *)



Lemma disabled_idle_sets_no_temperature_witness :
  existsb is_set_temperature
    (fst (scenario_tick true (env_quiet 5)
            (state_after true [env_disable 0; env_quiet 3]))) = false /\
  existsb is_set_temperature
    (fst (scenario_tick true (env_stop 5)
            (state_after true [env_disable 0; env_quiet 3]))) = false.
Proof.
  split.
  - apply (proj1 (disabled_idle_sets_no_temperature
                    civil_twilight_elev daylight (scenario_opts true)
                    (env_quiet 5)
                    (state_after true [env_disable 0; env_quiet 3])));
      reflexivity.
  - apply (proj2 (disabled_idle_sets_no_temperature
                    civil_twilight_elev daylight (scenario_opts true)
                    (env_stop 5)
                    (state_after true [env_disable 0; env_quiet 3])));
      try reflexivity.
    apply reachable_disabled_idle.
Defined.

(** * Floating-point rounding *)

(** ** Powers of two *)

Lemma pow2_pos (k : Z) : 0 < pow2 k.
Proof. apply Qpower_0_lt. reflexivity. Qed.

Lemma pow2_add (a b : Z) : pow2 (a + b) == pow2 a * pow2 b.
Proof. apply Qpower_plus. discriminate. Qed.

Lemma pow2_le (a b : Z) : (a <= b)%Z -> pow2 a <= pow2 b.
Proof. intro H. apply Qpower_le_compat_l; [exact H | discriminate]. Qed.

Lemma pow2_lt (a b : Z) : (a < b)%Z -> pow2 a < pow2 b.
Proof. intro H. apply Qpower_lt_compat_l; [exact H | reflexivity]. Qed.

Lemma pow2_Z (k : Z) : (0 <= k)%Z -> inject_Z (2 ^ k) == pow2 k.
Proof. intro H. apply (Zpower_Qpower 2 k H). Qed.

Lemma pow2_succ (k : Z) : pow2 (k + 1) == 2 * pow2 k.
Proof. rewrite pow2_add. change (pow2 1) with 2. ring. Qed.

Lemma pow2_div (a b : Z) : pow2 a / pow2 b == pow2 (a - b).
Proof.
  assert (H := pow2_add (a - b) b). replace (a - b + b)%Z with a in H by ring.
  rewrite H. field. assert (P := pow2_pos b). lra.
Qed.

(** ** The binary exponent *)

Lemma ilog2_spec (x : Q) :
  0 < x -> pow2 (ilog2 x) <= x /\ x < pow2 (ilog2 x + 1).
Proof.
  intro Hx. destruct x as [n d].
  assert (Hn : (0 < n)%Z) by (unfold Qlt in Hx; cbn in Hx; lia).
  unfold ilog2. cbn [Qnum Qden].
  set (a := Z.log2 n). set (b := Z.log2 (Zpos d)).
  destruct (Z.log2_spec n Hn) as [A1 A2]. fold a in A1, A2.
  destruct (Z.log2_spec (Zpos d) ltac:(lia)) as [B1 B2]. fold b in B1, B2.
  assert (Ha : (0 <= a)%Z) by apply Z.log2_nonneg.
  assert (Hb : (0 <= b)%Z) by apply Z.log2_nonneg.
  assert (Qa1 : pow2 a <= inject_Z n).
  { rewrite <- pow2_Z by exact Ha. now rewrite <- Zle_Qle. }
  assert (Qa2 : inject_Z n < pow2 (a + 1)).
  { rewrite <- pow2_Z by lia. rewrite <- Zlt_Qlt. now rewrite <- Z.add_1_r in A2. }
  assert (Qb1 : pow2 b <= inject_Z (Zpos d)).
  { rewrite <- pow2_Z by exact Hb. now rewrite <- Zle_Qle. }
  assert (Qb2 : inject_Z (Zpos d) < pow2 (b + 1)).
  { rewrite <- pow2_Z by lia. rewrite <- Zlt_Qlt. now rewrite <- Z.add_1_r in B2. }
  assert (Hd : 0 < inject_Z (Zpos d)) by reflexivity.
  assert (E : (n # d) * inject_Z (Zpos d) == inject_Z n).
  { unfold Qeq, Qmult, inject_Z. cbn. lia. }
  assert (Up : (n # d) < pow2 (a - b + 1)).
  { apply (Qmult_lt_r _ _ (inject_Z (Zpos d)) Hd). rewrite E.
    apply Qlt_le_trans with (pow2 (a + 1)); [exact Qa2 |].
    replace (a + 1)%Z with ((a - b + 1) + b)%Z by ring.
    rewrite pow2_add.
    apply Qmult_le_l; [apply pow2_pos | exact Qb1]. }
  assert (Lo : pow2 (a - b - 1) < (n # d)).
  { apply (Qmult_lt_r _ _ (inject_Z (Zpos d)) Hd). rewrite E.
    apply Qlt_le_trans with (pow2 a); [| exact Qa1].
    replace a with ((a - b - 1) + (b + 1))%Z at 2 by ring.
    rewrite pow2_add.
    apply Qmult_lt_l; [apply pow2_pos | exact Qb2]. }
  destruct (Qle_bool (pow2 (a - b)) (n # d)) eqn:C.
  - apply Qle_bool_iff in C. split; [exact C | exact Up].
  - split; [apply Qlt_le_weak; exact Lo |].
    replace (a - b - 1 + 1)%Z with (a - b)%Z by ring.
    apply Qnot_le_lt. intro H. apply Qle_bool_iff in H. congruence.
Qed.

Lemma ilog2_unique (x : Q) (e : Z) :
  pow2 e <= x -> x < pow2 (e + 1) -> ilog2 x = e.
Proof.
  intros H1 H2.
  assert (Hx : 0 < x) by (assert (P := pow2_pos e); lra).
  destruct (ilog2_spec x Hx) as [S1 S2].
  destruct (Z.lt_trichotomy (ilog2 x) e) as [L | [L | L]]; [| exact L |].
  - assert (P := pow2_le (ilog2 x + 1) e ltac:(lia)). lra.
  - assert (P := pow2_le (e + 1) (ilog2 x) ltac:(lia)). lra.
Qed.

Lemma ilog2_mono (x y : Q) : 0 < x -> x <= y -> (ilog2 x <= ilog2 y)%Z.
Proof.
  intros Hx Hxy.
  destruct (ilog2_spec x Hx) as [X1 X2].
  destruct (ilog2_spec y ltac:(lra)) as [Y1 Y2].
  destruct (Z.le_gt_cases (ilog2 x) (ilog2 y)) as [L | L]; [exact L |].
  assert (P := pow2_le (ilog2 y + 1) (ilog2 x) ltac:(lia)). lra.
Qed.

(** ** Rounding to the nearest integer *)

Lemma nearest_even_cases (x : Q) :
  (nearest_even x = Qfloor x /\ x - inject_Z (Qfloor x) <= 1 # 2) \/
  (nearest_even x = (Qfloor x + 1)%Z /\ 1 # 2 <= x - inject_Z (Qfloor x)).
Proof.
  unfold nearest_even.
  destruct (Qltb (x - inject_Z (Qfloor x)) (1 # 2)) eqn:A.
  - left. apply Qltb_lt in A. split; [reflexivity | lra].
  - apply Qltb_ge in A.
    destruct (Qltb (1 # 2) (x - inject_Z (Qfloor x))) eqn:B.
    + right. split; [reflexivity | exact A].
    + apply Qltb_ge in B. destruct (Z.even (Qfloor x)).
      * left. split; [reflexivity | exact B].
      * right. split; [reflexivity | exact A].
Qed.

Lemma floor_bounds (x : Q) : inject_Z (Qfloor x) <= x /\ x < inject_Z (Qfloor x) + 1.
Proof.
  split; [apply Qfloor_le |].
  assert (H := Qlt_floor x). rewrite inject_Z_plus in H. exact H.
Qed.

Lemma nearest_even_error (x : Q) :
  x - (1 # 2) <= inject_Z (nearest_even x) <= x + (1 # 2).
Proof.
  destruct (floor_bounds x) as [F1 F2].
  destruct (nearest_even_cases x) as [[E H] | [E H]]; rewrite E.
  - lra.
  - rewrite inject_Z_plus. change (inject_Z 1) with 1. lra.
Qed.

Lemma nearest_even_mono (x y : Q) :
  x <= y -> (nearest_even x <= nearest_even y)%Z.
Proof.
  intro H.
  assert (F := Qfloor_resp_le x y H).
  destruct (Z.eq_dec (Qfloor x) (Qfloor y)) as [E | N].
  - unfold nearest_even. rewrite <- E.
    set (f := Qfloor x).
    destruct (Qltb (x - inject_Z f) (1 # 2)) eqn:A1.
    + destruct (Qltb (y - inject_Z f) (1 # 2)); [lia |].
      destruct (Qltb (1 # 2) (y - inject_Z f)); [lia |].
      destruct (Z.even f); lia.
    + apply Qltb_ge in A1.
      assert (A2 : Qltb (y - inject_Z f) (1 # 2) = false) by (apply Qltb_ge; lra).
      rewrite A2.
      destruct (Qltb (1 # 2) (x - inject_Z f)) eqn:B1.
      * apply Qltb_lt in B1.
        assert (B2 : Qltb (1 # 2) (y - inject_Z f) = true) by (apply Qltb_lt; lra).
        rewrite B2. lia.
      * destruct (Qltb (1 # 2) (y - inject_Z f)); [destruct (Z.even f); lia |].
        lia.
  - destruct (nearest_even_cases x) as [[Ex _] | [Ex _]];
    destruct (nearest_even_cases y) as [[Ey _] | [Ey _]]; lia.
Qed.

Lemma nearest_even_comp (x y : Q) : x == y -> nearest_even x = nearest_even y.
Proof.
  intro H. apply Z.le_antisymm; apply nearest_even_mono; lra.
Qed.

Lemma nearest_even_Z (z : Z) : nearest_even (inject_Z z) = z.
Proof.
  unfold nearest_even. rewrite Qfloor_Z.
  assert (A : Qltb (inject_Z z - inject_Z z) (1 # 2) = true) by (apply Qltb_lt; lra).
  now rewrite A.
Qed.

(** ** Rounding to [prec] bits *)

Section Rounding.

Variable prec : Z.
Hypothesis prec_pos : (0 < prec)%Z.

Lemma mantissa_bounds (x : Q) :
  0 < x ->
  pow2 (prec - 1) <= x / pow2 (ilog2 x - (prec - 1)) /\
  x / pow2 (ilog2 x - (prec - 1)) < pow2 prec.
Proof.
  intro Hx. destruct (ilog2_spec x Hx) as [S1 S2].
  set (e := (ilog2 x - (prec - 1))%Z).
  assert (P := pow2_pos e).
  assert (E1 : pow2 (ilog2 x) == pow2 (prec - 1) * pow2 e).
  { rewrite <- pow2_add. unfold e.
    replace (prec - 1 + (ilog2 x - (prec - 1)))%Z with (ilog2 x) by ring.
    reflexivity. }
  assert (E2 : pow2 (ilog2 x + 1) == pow2 prec * pow2 e).
  { rewrite <- pow2_add. unfold e.
    replace (prec + (ilog2 x - (prec - 1)))%Z with (ilog2 x + 1)%Z by ring.
    reflexivity. }
  split.
  - apply Qle_shift_div_l; [exact P | lra].
  - apply Qlt_shift_div_r; [exact P | lra].
Qed.

Lemma mantissa_rounded (x : Q) :
  0 < x ->
  pow2 (prec - 1) <= inject_Z (nearest_even (x / pow2 (ilog2 x - (prec - 1))))
  /\ inject_Z (nearest_even (x / pow2 (ilog2 x - (prec - 1)))) <= pow2 prec.
Proof.
  intro Hx. destruct (mantissa_bounds x Hx) as [M1 M2].
  split.
  - rewrite <- (pow2_Z (prec - 1)) by lia. rewrite <- Zle_Qle.
    apply Z.le_trans with (nearest_even (inject_Z (2 ^ (prec - 1))));
      [rewrite nearest_even_Z; apply Z.le_refl |].
    apply nearest_even_mono. rewrite (pow2_Z (prec - 1)) by lia. exact M1.
  - rewrite <- (pow2_Z prec) by lia. rewrite <- Zle_Qle.
    apply Z.le_trans with (nearest_even (inject_Z (2 ^ prec)));
      [| rewrite nearest_even_Z; apply Z.le_refl].
    apply nearest_even_mono. rewrite (pow2_Z prec) by lia. lra.
Qed.

Lemma round_magnitude_bounds (x : Q) :
  0 < x ->
  pow2 (ilog2 x) <= round_magnitude prec x <= pow2 (ilog2 x + 1).
Proof.
  intro Hx. destruct (mantissa_rounded x Hx) as [M1 M2].
  unfold round_magnitude.
  set (e := (ilog2 x - (prec - 1))%Z) in *.
  assert (P := pow2_pos e).
  assert (E1 : pow2 (ilog2 x) == pow2 (prec - 1) * pow2 e).
  { rewrite <- pow2_add. unfold e.
    replace (prec - 1 + (ilog2 x - (prec - 1)))%Z with (ilog2 x) by ring.
    reflexivity. }
  assert (E2 : pow2 (ilog2 x + 1) == pow2 prec * pow2 e).
  { rewrite <- pow2_add. unfold e.
    replace (prec + (ilog2 x - (prec - 1)))%Z with (ilog2 x + 1)%Z by ring.
    reflexivity. }
  rewrite E1, E2. split; apply Qmult_le_compat_r; lra.
Qed.

Lemma round_magnitude_pos (x : Q) : 0 < x -> 0 < round_magnitude prec x.
Proof.
  intro Hx. destruct (round_magnitude_bounds x Hx) as [B _].
  assert (P := pow2_pos (ilog2 x)). lra.
Qed.

Lemma round_magnitude_mono (x y : Q) :
  0 < x -> x <= y -> round_magnitude prec x <= round_magnitude prec y.
Proof.
  intros Hx Hxy.
  assert (Hy : 0 < y) by lra.
  assert (L := ilog2_mono x y Hx Hxy).
  destruct (Z.eq_dec (ilog2 x) (ilog2 y)) as [E | N].
  - unfold round_magnitude. rewrite E.
    set (e := (ilog2 y - (prec - 1))%Z).
    assert (P := pow2_pos e).
    apply Qmult_le_compat_r; [| lra].
    rewrite <- Zle_Qle. apply nearest_even_mono.
    apply Qmult_le_compat_r; [exact Hxy |].
    apply Qlt_le_weak. now apply Qinv_lt_0_compat.
  - destruct (round_magnitude_bounds x Hx) as [_ Bx].
    destruct (round_magnitude_bounds y Hy) as [By _].
    assert (P := pow2_le (ilog2 x + 1) (ilog2 y) ltac:(lia)). lra.
Qed.

Lemma round_magnitude_error (x : Q) :
  0 < x ->
  x - pow2 (- prec) * x <= round_magnitude prec x <= x + pow2 (- prec) * x.
Proof.
  intro Hx. destruct (ilog2_spec x Hx) as [S1 _].
  unfold round_magnitude.
  set (e := (ilog2 x - (prec - 1))%Z).
  assert (P := pow2_pos e).
  assert (N := nearest_even_error (x / pow2 e)).
  set (m := inject_Z (nearest_even (x / pow2 e))) in *.
  assert (X : x == x / pow2 e * pow2 e) by (field; lra).
  assert (H : pow2 e * (1 # 2) <= pow2 (- prec) * x).
  { assert (E : pow2 e * (1 # 2) == pow2 (- prec) * pow2 (ilog2 x)).
    { rewrite <- pow2_add.
      replace (- prec + ilog2 x)%Z with ((e - 1))%Z by (unfold e; ring).
      assert (S := pow2_succ (e - 1)).
      replace (e - 1 + 1)%Z with e in S by ring. rewrite S. field. }
    rewrite E. apply Qmult_le_l; [apply pow2_pos | exact S1]. }
  assert (A : (x / pow2 e - (1 # 2)) * pow2 e <= m * pow2 e)
    by (apply Qmult_le_compat_r; lra).
  assert (B : m * pow2 e <= (x / pow2 e + (1 # 2)) * pow2 e)
    by (apply Qmult_le_compat_r; lra).
  assert (A' : (x / pow2 e - (1 # 2)) * pow2 e == x - pow2 e * (1 # 2))
    by (field; lra).
  assert (B' : (x / pow2 e + (1 # 2)) * pow2 e == x + pow2 e * (1 # 2))
    by (field; lra).
  lra.
Qed.


Lemma round_to_pos (x : Q) : 0 < x -> round_to prec x == round_magnitude prec x.
Proof.
  intro Hx. unfold round_to. destruct x as [[| p | p] d].
  - discriminate Hx.
  - apply Qred_correct.
  - discriminate Hx.
Qed.

Lemma round_to_neg (x : Q) :
  x < 0 -> round_to prec x == - round_magnitude prec (- x).
Proof.
  intro Hx. unfold round_to. destruct x as [[| p | p] d].
  - discriminate Hx.
  - discriminate Hx.
  - apply Qred_correct.
Qed.

Lemma round_to_zero (x : Q) : x == 0 -> round_to prec x == 0.
Proof.
  intro Hx. unfold round_to. destruct x as [[| p | p] d].
  - reflexivity.
  - discriminate Hx.
  - discriminate Hx.
Qed.

Lemma round_to_mono (x y : Q) : x <= y -> round_to prec x <= round_to prec y.
Proof.
  intro H.
  destruct (Q_dec x 0) as [[X | X] | X], (Q_dec y 0) as [[Y | Y] | Y];
    try (exfalso; lra).
  - rewrite (round_to_neg x X), (round_to_neg y Y).
    assert (M := round_magnitude_mono (- y) (- x) ltac:(lra) ltac:(lra)). lra.
  - rewrite (round_to_neg x X), (round_to_pos y Y).
    assert (A := round_magnitude_pos (- x) ltac:(lra)).
    assert (B := round_magnitude_pos y Y). lra.
  - rewrite (round_to_neg x X), (round_to_zero y Y).
    assert (A := round_magnitude_pos (- x) ltac:(lra)). lra.
  - rewrite (round_to_pos x X), (round_to_pos y Y).
    now apply round_magnitude_mono.
  - rewrite (round_to_zero x X), (round_to_pos y Y).
    assert (B := round_magnitude_pos y Y). lra.
  - rewrite (round_to_zero x X), (round_to_zero y Y). lra.
Qed.

Lemma round_to_comp (x y : Q) : x == y -> round_to prec x == round_to prec y.
Proof.
  intro H. apply Qle_antisym; apply round_to_mono; lra.
Qed.

Lemma round_to_error (x : Q) :
  Qabs (round_to prec x - x) <= pow2 (- prec) * Qabs x.
Proof.
  destruct (Q_dec x 0) as [[X | X] | X].
  - rewrite (round_to_neg x X), (Qabs_neg x) by lra.
    assert (E := round_magnitude_error (- x) ltac:(lra)).
    apply Qabs_Qle_condition. lra.
  - rewrite (round_to_pos x X), (Qabs_pos x) by lra.
    assert (E := round_magnitude_error x X).
    apply Qabs_Qle_condition. lra.
  - rewrite (round_to_zero x X), X. cbn. 
    assert (P := pow2_pos (- prec)). rewrite Qmult_0_r. apply Qle_refl.
Qed.

End Rounding.

(** ** The two formats *)

Lemma to_float_mono (x y : Q) : x <= y -> to_float x <= to_float y.
Proof. apply round_to_mono. lia. Qed.

Lemma to_double_mono (x y : Q) : x <= y -> to_double x <= to_double y.
Proof. apply round_to_mono. lia. Qed.

Lemma to_float_comp (x y : Q) : x == y -> to_float x == to_float y.
Proof. apply round_to_comp. lia. Qed.

Lemma to_double_comp (x y : Q) : x == y -> to_double x == to_double y.
Proof. apply round_to_comp. lia. Qed.

Lemma to_float_unit (x : Q) : 0 <= x <= 1 -> 0 <= to_float x <= 1.
Proof.
  intros [H0 H1].
  assert (A := to_float_mono 0 x H0). assert (B := to_float_mono x 1 H1).
  assert (E0 : to_float 0 == 0) by reflexivity.
  assert (E1 : to_float 1 == 1) by reflexivity.
  lra.
Qed.

Lemma to_double_unit (x : Q) : 0 <= x <= 1 -> 0 <= to_double x <= 1.
Proof.
  intros [H0 H1].
  assert (A := to_double_mono 0 x H0). assert (B := to_double_mono x 1 H1).
  assert (E0 : to_double 0 == 0) by reflexivity.
  assert (E1 : to_double 1 == 1) by reflexivity.
  lra.
Qed.

Lemma to_double_negative (x : Q) : x < 0 -> to_double x < 0.
Proof.
  intro H. unfold to_double. rewrite (round_to_neg 53 x H).
  assert (P := round_magnitude_pos 53 ltac:(lia) (- x) ltac:(lra)). lra.
Qed.

(** The relative error of a rounding, for a non-negative argument. *)
Lemma to_float_near (x : Q) :
  0 <= x ->
  x - float_roundoff * x <= to_float x <= x + float_roundoff * x.
Proof.
  intro H. assert (E := round_to_error 24 x).
  rewrite (Qabs_pos x H) in E. apply Qabs_Qle_condition in E.
  change (pow2 (- (24))) with (1 # 16777216) in E.
  unfold to_float, float_roundoff. lra.
Qed.

Lemma to_double_near (x : Q) :
  0 <= x ->
  x - double_roundoff * x <= to_double x <= x + double_roundoff * x.
Proof.
  intro H. assert (E := round_to_error 53 x).
  rewrite (Qabs_pos x H) in E. apply Qabs_Qle_condition in E.
  change (pow2 (- (53))) with (1 # 9007199254740992) in E.
  unfold to_double, double_roundoff. lra.
Qed.

Lemma to_double_near_neg (x : Q) :
  x <= 0 ->
  x + double_roundoff * x <= to_double x <= x - double_roundoff * x.
Proof.
  intro H. assert (E := round_to_error 53 x).
  rewrite (Qabs_neg x H) in E. apply Qabs_Qle_condition in E.
  change (pow2 (- (53))) with (1 # 9007199254740992) in E.
  unfold to_double, double_roundoff. lra.
Qed.

(** * The temperature model in floating point *)

Section RoundedTemperature.

Variable low : Q.
Hypothesis low_below_high : low < TRANSITION_HIGH.

(** The divisor [TRANSITION_LOW - TRANSITION_HIGH] is negative. *)
Lemma span_negative : to_double (low - TRANSITION_HIGH) < 0.
Proof. apply to_double_negative. lra. Qed.

Lemma quotient_by_span (x : Q) :
  x / to_double (low - TRANSITION_HIGH)
  == (- x) * / (- to_double (low - TRANSITION_HIGH)).
Proof. assert (D := span_negative). field. lra. Qed.

Lemma quotient_mono (x y : Q) :
  x <= y ->
  to_double (low - x) / to_double (low - TRANSITION_HIGH)
  <= to_double (low - y) / to_double (low - TRANSITION_HIGH).
Proof.
  intro H. assert (D := span_negative).
  assert (M := to_double_mono (low - y) (low - x) ltac:(lra)).
  rewrite !quotient_by_span.
  assert (I : 0 < / (- to_double (low - TRANSITION_HIGH)))
    by (apply Qinv_lt_0_compat; lra).
  apply Qmult_le_compat_r; lra.
Qed.

Lemma quotient_at_low :
  to_double (low - low) / to_double (low - TRANSITION_HIGH) == 0.
Proof.
  assert (D := span_negative).
  assert (Z : to_double (low - low) == 0)
    by (apply round_to_zero; ring).
  rewrite Z. field. lra.
Qed.

Lemma quotient_at_high :
  to_double (low - TRANSITION_HIGH) / to_double (low - TRANSITION_HIGH) == 1.
Proof. assert (D := span_negative). field. lra. Qed.

Lemma quotient_unit (elevation : Q) :
  low <= elevation <= TRANSITION_HIGH ->
  0 <= to_double (low - elevation) / to_double (low - TRANSITION_HIGH) <= 1.
Proof.
  intros [H1 H2].
  assert (A := quotient_mono low elevation H1).
  assert (B := quotient_mono elevation TRANSITION_HIGH H2).
  rewrite quotient_at_low in A. rewrite quotient_at_high in B.
  split; assumption.
Qed.

Lemma rounded_fraction_unit (elevation : Q) :
  low <= elevation <= TRANSITION_HIGH ->
  0 <= Rounded.transition_fraction low elevation <= 1.
Proof.
  intro H. unfold Rounded.transition_fraction, Rounded.TRANSITION_LOW.
  apply to_float_unit, to_double_unit, quotient_unit, H.
Qed.

Lemma rounded_fraction_mono (x y : Q) :
  x <= y ->
  Rounded.transition_fraction low x <= Rounded.transition_fraction low y.
Proof.
  intro H. unfold Rounded.transition_fraction, Rounded.TRANSITION_LOW.
  apply to_float_mono, to_double_mono, quotient_mono, H.
Qed.

(** The quotient of the two rounded differences is within three units
    of double roundoff of the exact quotient. *)
Lemma quotient_near (elevation : Q) :
  low <= elevation <= TRANSITION_HIGH ->
  transition_fraction low elevation - 3 * double_roundoff
  <= to_double (low - elevation) / to_double (low - TRANSITION_HIGH)
  <= transition_fraction low elevation + 3 * double_roundoff.
Proof.
  intros [H1 H2].
  assert (D := span_negative).
  assert (ND := to_double_near_neg (low - TRANSITION_HIGH) ltac:(lra)).
  assert (NX := to_double_near_neg (low - elevation) ltac:(lra)).
  unfold transition_fraction, TRANSITION_LOW.
  set (f := (low - elevation) / (low - TRANSITION_HIGH)).
  set (m := TRANSITION_HIGH - low).
  assert (Hm : 0 < m) by (unfold m; lra).
  assert (Ef : low - elevation == - (f * m)).
  { unfold f, m. field. lra. }
  assert (Em : low - TRANSITION_HIGH == - m) by (unfold m; ring).
  assert (Hf : 0 <= f <= 1).
  { assert (I : 0 < / m) by now apply Qinv_lt_0_compat.
    assert (E : f == (elevation - low) * / m) by (unfold f, m; field; lra).
    assert (E1 : 1 - f == (TRANSITION_HIGH - elevation) * / m)
      by (unfold f, m; field; lra).
    assert (0 <= (elevation - low) * / m) by (apply Qmult_le_0_compat; lra).
    assert (0 <= (TRANSITION_HIGH - elevation) * / m)
      by (apply Qmult_le_0_compat; lra).
    lra. }
  set (x := to_double (low - elevation)) in *.
  set (d := to_double (low - TRANSITION_HIGH)) in *.
  assert (Q : x / d == (- x) / (- d)) by (field; lra).
  rewrite Q. unfold double_roundoff in *.
  assert (Fm : 0 <= f * m) by (apply Qmult_le_0_compat; lra).
  assert (Fm1 : f * m <= 1 * m) by (apply Qmult_le_compat_r; lra).
  split.
  - apply Qle_shift_div_l; [lra |].
    destruct (Qlt_le_dec f (3 * (1 # 9007199254740992))) as [C | C].
    + (* a fraction below the error bound: the left side is negative *)
      assert (P : 0 <= (3 * (1 # 9007199254740992) - f) * (- d))
        by (apply Qmult_le_0_compat; lra).
      nra.
    + assert (P : 0 <= (f - 3 * (1 # 9007199254740992))
                       * (m + (1 # 9007199254740992) * m - (- d)))
        by (apply Qmult_le_0_compat; lra).
      nra.
  - apply Qle_shift_div_r; [lra |].
    assert (P : 0 <= (f + 3 * (1 # 9007199254740992))
                     * ((- d) - (m - (1 # 9007199254740992) * m)))
      by (apply Qmult_le_0_compat; lra).
    nra.
Qed.

Lemma rounded_fraction_near (elevation : Q) :
  low <= elevation <= TRANSITION_HIGH ->
  Qabs (Rounded.transition_fraction low elevation
        - transition_fraction low elevation) <= 1 # 8388608.
Proof.
  intro H.
  assert (Q := quotient_near elevation H).
  assert (U := quotient_unit elevation H).
  unfold Rounded.transition_fraction, Rounded.TRANSITION_LOW.
  set (q := to_double (low - elevation) / to_double (low - TRANSITION_HIGH)) in *.
  assert (N1 := to_double_near q ltac:(lra)).
  assert (U1 := to_double_unit q U).
  assert (N2 := to_float_near (to_double q) ltac:(lra)).
  unfold double_roundoff, float_roundoff in *.
  apply Qabs_Qle_condition. lra.
Qed.

(** C2, as the code has it: below [TRANSITION_LOW] the night temperature,
    from [TRANSITION_HIGH] on the day temperature, and in between
    [(1-a)*night + a*day] as the C expression evaluates it, the fraction
    [a] and the product [a*day] rounded to [float], the other operations
    to [double], and the sum truncated toward zero by the conversion to
    [int]; [a] is the quotient
    [(TRANSITION_LOW - elevation) / (TRANSITION_LOW - TRANSITION_HIGH)]
    of [double]s stored into a [float], and lies in [0,1]. *)
Theorem calculate_temp_rounded_periods (elevation : Q) (day night : Z) :
  (elevation < Rounded.TRANSITION_LOW low ->
     Rounded.calculate_temp low elevation day night = night) /\
  (TRANSITION_HIGH <= elevation ->
     Rounded.calculate_temp low elevation day night = day) /\
  (Rounded.TRANSITION_LOW low <= elevation < TRANSITION_HIGH ->
     let a :=
       to_float
         (to_double (to_double (Rounded.TRANSITION_LOW low - elevation)
                     / to_double (Rounded.TRANSITION_LOW low - TRANSITION_HIGH)))
     in
     Rounded.calculate_temp low elevation day night
       = double_to_int
           (to_double (to_double (to_double (1 - a) * inject_Z night)
                       + to_float (a * to_float (inject_Z day))))
     /\ 0 <= a <= 1).
Proof.
  unfold Rounded.calculate_temp, Rounded.TRANSITION_LOW.
  split; [| split].
  - intro H. apply Qltb_lt in H. now rewrite H.
  - intro H.
    assert (E1 : Qltb elevation low = false) by (apply Qltb_ge; lra).
    assert (E2 : Qltb elevation TRANSITION_HIGH = false) by now apply Qltb_ge.
    now rewrite E1, E2.
  - intros [H1 H2]. cbv zeta. split.
    + apply Qltb_ge in H1. apply Qltb_lt in H2. now rewrite H1, H2.
    + apply (rounded_fraction_unit elevation). lra.
Qed.

(** C4, as the code has it: the fraction is 0 at [TRANSITION_LOW] and 1
    at [TRANSITION_HIGH], and never decreases as the elevation rises.  It
    is a [float]: across the band it stays within [2^-23] of the exact
    quotient, and it is that quotient, an affine function of the
    elevation, which is continuous. *)
Theorem transition_fraction_rounded_shape :
  Rounded.transition_fraction low (Rounded.TRANSITION_LOW low) == 0 /\
  Rounded.transition_fraction low TRANSITION_HIGH == 1 /\
  (forall x y, x <= y ->
     Rounded.transition_fraction low x <= Rounded.transition_fraction low y) /\
  (forall elevation,
     Rounded.TRANSITION_LOW low <= elevation <= TRANSITION_HIGH ->
     Qabs (Rounded.transition_fraction low elevation
           - (Rounded.TRANSITION_LOW low - elevation)
             / (Rounded.TRANSITION_LOW low - TRANSITION_HIGH))
     <= 1 # 8388608) /\
  (forall x eps, 0 < eps ->
     exists delta, 0 < delta /\
       forall y, Qabs (y - x) < delta ->
         Qabs ((Rounded.TRANSITION_LOW low - y)
               / (Rounded.TRANSITION_LOW low - TRANSITION_HIGH)
               - (Rounded.TRANSITION_LOW low - x)
                 / (Rounded.TRANSITION_LOW low - TRANSITION_HIGH)) < eps).
Proof.
  unfold Rounded.TRANSITION_LOW.
  split; [| split; [| split; [| split]]].
  - unfold Rounded.transition_fraction, Rounded.TRANSITION_LOW.
    transitivity (to_float (to_double 0)); [| reflexivity].
    apply to_float_comp, to_double_comp, quotient_at_low.
  - unfold Rounded.transition_fraction, Rounded.TRANSITION_LOW.
    transitivity (to_float (to_double 1)); [| reflexivity].
    apply to_float_comp, to_double_comp, quotient_at_high.
  - apply rounded_fraction_mono.
  - intros elevation H. apply (rounded_fraction_near elevation H).
  - intros x eps Heps.
    exists (eps * (TRANSITION_HIGH - low)). split.
    + apply Qmult_lt_0_compat; lra.
    + intros y Hy.
      assert (E : (low - y) / (low - TRANSITION_HIGH)
                  - (low - x) / (low - TRANSITION_HIGH)
                  == (y - x) * / (TRANSITION_HIGH - low)) by (field; lra).
      rewrite E, Qabs_Qmult.
      assert (I : 0 < / (TRANSITION_HIGH - low))
        by (apply Qinv_lt_0_compat; lra).
      rewrite (Qabs_pos (/ (TRANSITION_HIGH - low))) by lra.
      change (Qabs (y - x) / (TRANSITION_HIGH - low) < eps).
      apply Qlt_shift_div_r; [lra | exact Hy].
Qed.

End RoundedTemperature.

Lemma calculate_temp_rounded_periods_witness :
  civil_twilight_elev < TRANSITION_HIGH /\
  Rounded.calculate_temp civil_twilight_elev (-10) 5500 3700 = 3700%Z /\
  Rounded.calculate_temp civil_twilight_elev 10 5500 3700 = 5500%Z /\
  Rounded.calculate_temp civil_twilight_elev (1 # 2) 5500 3700 = 4999%Z /\
  0 <= to_float
         (to_double
            (to_double (Rounded.TRANSITION_LOW civil_twilight_elev - (1 # 2))
             / to_double (Rounded.TRANSITION_LOW civil_twilight_elev
                          - TRANSITION_HIGH)))
    <= 1.
Proof.
  assert (H : civil_twilight_elev < TRANSITION_HIGH) by reflexivity.
  split; [exact H |].
  split.
  { apply (calculate_temp_rounded_periods civil_twilight_elev H (-10) 5500 3700).
    reflexivity. }
  split.
  { apply (calculate_temp_rounded_periods civil_twilight_elev H 10 5500 3700).
    discriminate. }
  destruct (calculate_temp_rounded_periods
              civil_twilight_elev H (1 # 2) 5500 3700) as (_ & _ & B).
  assert (C : Rounded.TRANSITION_LOW civil_twilight_elev <= 1 # 2
              < TRANSITION_HIGH) by (split; [discriminate | reflexivity]).
  specialize (B C). cbv zeta in B. destruct B as [E U].
  split.
  - rewrite E. vm_compute. reflexivity.
  - exact U.
Defined.

(** C2 as stated fails inside the band, for two reasons.  The conversion
    to [int] drops the fractional part: at elevation 0.001 the formula
    gives 4900.2 and the code returns 4900.  And the arithmetic is that
    of [float] and [double]: at elevation 0.5 the formula gives 5000
    exactly, the code's sum falls just short of it and the code returns
    4999. *)
Lemma calculate_temp_rounded_not_exact :
  TRANSITION_LOW civil_twilight_elev <= (1 # 1000) < TRANSITION_HIGH /\
  Rounded.calculate_temp civil_twilight_elev (1 # 1000) 5500 3700 = 4900%Z /\
  (1 - transition_fraction civil_twilight_elev (1 # 1000)) * inject_Z 3700
    + transition_fraction civil_twilight_elev (1 # 1000) * inject_Z 5500
    == 49002 # 10 /\
  TRANSITION_LOW civil_twilight_elev <= (1 # 2) < TRANSITION_HIGH /\
  Rounded.calculate_temp civil_twilight_elev (1 # 2) 5500 3700 = 4999%Z /\
  (1 - transition_fraction civil_twilight_elev (1 # 2)) * inject_Z 3700
    + transition_fraction civil_twilight_elev (1 # 2) * inject_Z 5500
    == 5000.
Proof.
  split; [split; [discriminate | reflexivity] |].
  split; [vm_compute; reflexivity |].
  split; [reflexivity |].
  split; [split; [discriminate | reflexivity] |].
  split; [vm_compute; reflexivity | reflexivity].
Qed.

Lemma transition_fraction_rounded_shape_witness :
  civil_twilight_elev < TRANSITION_HIGH /\
  Rounded.transition_fraction civil_twilight_elev
    (Rounded.TRANSITION_LOW civil_twilight_elev) == 0 /\
  Rounded.transition_fraction civil_twilight_elev TRANSITION_HIGH == 1 /\
  Rounded.transition_fraction civil_twilight_elev (-3)
    <= Rounded.transition_fraction civil_twilight_elev 0 /\
  Qabs (Rounded.transition_fraction civil_twilight_elev (-3)
        - (Rounded.TRANSITION_LOW civil_twilight_elev - (-3))
          / (Rounded.TRANSITION_LOW civil_twilight_elev - TRANSITION_HIGH))
    <= 1 # 8388608.
Proof.
  assert (H : civil_twilight_elev < TRANSITION_HIGH) by reflexivity.
  destruct (transition_fraction_rounded_shape civil_twilight_elev H)
    as (H0 & H1 & Hm & Hn & _).
  split; [exact H |].
  split; [exact H0 |].
  split; [exact H1 |].
  split.
  - apply Hm. discriminate.
  - apply Hn. split; discriminate.
Defined.

(** C4 as stated has the end points the wrong way round: the code's
    fraction is 1, not 0, at [TRANSITION_HIGH] and 0, not 1, at
    [TRANSITION_LOW].  Nor is the fraction a continuous function of the
    elevation: it is a [float], with one and the same value at 0.5 and at
    the next [double] after 0.5, where the quotient differs. *)
Lemma transition_fraction_rounded_endpoints_swapped :
  ~ Rounded.transition_fraction civil_twilight_elev TRANSITION_HIGH == 0 /\
  ~ Rounded.transition_fraction civil_twilight_elev
      (Rounded.TRANSITION_LOW civil_twilight_elev) == 1 /\
  to_double ((1 # 2) + pow2 (-53)) == (1 # 2) + pow2 (-53) /\
  Rounded.transition_fraction civil_twilight_elev (1 # 2)
    = Rounded.transition_fraction civil_twilight_elev ((1 # 2) + pow2 (-53)) /\
  ~ transition_fraction civil_twilight_elev (1 # 2)
    == transition_fraction civil_twilight_elev ((1 # 2) + pow2 (-53)).
Proof.
  split; [intro H; vm_compute in H; discriminate H |].
  split; [intro H; vm_compute in H; discriminate H |].
  split; [vm_compute; reflexivity |].
  split; [vm_compute; reflexivity |].
  intro H; vm_compute in H; discriminate H.
Qed.

(** * The loop in floating point *)

Section RoundedLoop.

Variable low : Q.
Variable solar_elevation : Q -> Q -> Q -> Q.
Variable opts : rs_opts.

Lemma rounded_ongoing_alpha (now : Q) (s : loop_state) :
  adjustment_alpha (Rounded.ongoing_transition now s)
  = if short_trans s then Rounded.fade_alpha now s else adjustment_alpha s.
Proof.
  unfold Rounded.ongoing_transition. now destruct (short_trans s).
Qed.

Lemma rounded_ongoing_short_trans (now : Q) (s : loop_state) :
  short_trans (Rounded.ongoing_transition now s)
  = short_trans s && negb (Qltb (short_trans_end s) now).
Proof.
  unfold Rounded.ongoing_transition.
  destruct (short_trans s) eqn:E; proj_simpl; [| exact E].
  now destruct (Qltb (short_trans_end s) now).
Qed.

Lemma rounded_tick_state_alpha (env : tick_env) (now : Q) (s : loop_state) :
  adjustment_alpha (Rounded.tick_state opts env now s)
  = if short_trans (Rounded.armed_state opts env now s)
    then Rounded.fade_alpha now (Rounded.armed_state opts env now s)
    else adjustment_alpha (Rounded.armed_state opts env now s).
Proof.
  unfold Rounded.tick_state.
  now rewrite handle_end_alpha, rounded_ongoing_alpha.
Qed.

Lemma rounded_tick_state_short_trans (env : tick_env) (now : Q)
    (s : loop_state) :
  short_trans (Rounded.tick_state opts env now s)
  = short_trans (Rounded.armed_state opts env now s)
    && negb (Qltb (short_trans_end (Rounded.armed_state opts env now s)) now).
Proof.
  unfold Rounded.tick_state.
  now rewrite handle_end_short_trans, rounded_ongoing_short_trans.
Qed.

Lemma rounded_tick_restored_shape (env : tick_env) (now : Q)
    (s : loop_state) :
  Rounded.tick_restored opts env now s = []
  \/ Rounded.tick_restored opts env now s = [EvRestore].
Proof.
  unfold Rounded.tick_restored. rewrite handle_end_events.
  destruct (_ && _); auto.
Qed.

Lemma rounded_tick_clock_failure (env : tick_env) (s : loop_state) :
  env_time env = None ->
  Rounded.tick low solar_elevation opts env s
  = ([EvFree], Fatal (poll_signals env s)).
Proof. intro H. unfold Rounded.tick. now rewrite H. Qed.

Lemma rounded_tick_clock_read (env : tick_env) (now : Q) (s : loop_state) :
  env_time env = Some now ->
  Rounded.tick low solar_elevation opts env s
  = let s' := Rounded.tick_state opts env now s in
    let restored := Rounded.tick_restored opts env now s in
    let temp := Rounded.tick_temp low solar_elevation opts env now s in
    if done s' && negb (short_trans s') then (restored, Break s')
    else if negb (disabled s') || short_trans s' then
      if env_set_ok env then
        (restored ++ [EvSetTemperature temp; tick_sleep s'], Continue s')
      else
        (restored ++ [EvSetTemperature temp; EvFree], Fatal s')
    else (restored ++ [tick_sleep s'], Continue s').
Proof.
  intro H.
  unfold Rounded.tick, Rounded.tick_temp, Rounded.tick_restored,
    Rounded.tick_state, Rounded.armed_state.
  rewrite H.
  destruct (handle_end _) as [restored s']. reflexivity.
Qed.

Lemma rounded_tick_outcome_state (env : tick_env) (now : Q)
    (s : loop_state) :
  env_time env = Some now ->
  outcome_state (snd (Rounded.tick low solar_elevation opts env s))
  = Rounded.tick_state opts env now s.
Proof.
  intro H. rewrite (rounded_tick_clock_read env now s H). cbv zeta.
  destruct (done _ && negb _); [reflexivity |].
  destruct (negb _ || _); [| reflexivity].
  destruct (env_set_ok env); reflexivity.
Qed.

Lemma rounded_set_temperature_in_tick (env : tick_env) (now : Q)
    (s : loop_state) (t : Z) :
  env_time env = Some now ->
  In (EvSetTemperature t) (fst (Rounded.tick low solar_elevation opts env s)) ->
  t = Rounded.tick_temp low solar_elevation opts env now s.
Proof.
  intros E H. rewrite (rounded_tick_clock_read env now s E) in H.
  cbv zeta in H.
  assert (R : ~ In (EvSetTemperature t) (Rounded.tick_restored opts env now s)).
  { destruct (rounded_tick_restored_shape env now s) as [-> | ->]; cbn;
      intuition discriminate. }
  assert (Sl : tick_sleep (Rounded.tick_state opts env now s)
               <> EvSetTemperature t).
  { unfold tick_sleep. destruct (short_trans _); discriminate. }
  destruct (done _ && negb _); cbn [fst] in H; [contradiction |].
  destruct (negb _ || _).
  - destruct (env_set_ok env); cbn [fst] in H; apply in_app_or in H;
      destruct H as [H | [H | [H | []]]];
      try contradiction; try discriminate; now injection H.
  - cbn [fst] in H. apply in_app_or in H.
    destruct H as [H | [H | []]]; contradiction.
Qed.

(** C3, as the code has it: with a transition in flight the fraction
    starts from the remaining time over the duration,
    [(end - now) / len], which is one minus the elapsed time over the
    duration; it is inverted when the direction is toward neutral and
    then clamped to [0,1], each of the three values being stored into the
    [float adjustment_alpha].  The temperature of every [set_temperature]
    call of the iteration is [alpha*6500 + (1-alpha)*target] as the C
    expression evaluates it, the left product rounded to [float], the
    right product and the sum to [double], truncated toward zero by the
    conversion to [int]; the call is made as long as the transition has
    not run out. *)
Theorem fade_fraction_of_rounded_tick (env : tick_env) (now : Q)
    (s : loop_state) :
  env_time env = Some now ->
  short_trans (Rounded.armed_state opts env now s) = true ->
  let a := Rounded.armed_state opts env now s in
  let len := inject_Z (short_trans_len a) in
  let remaining :=
    to_float (to_double (to_double (short_trans_end a - now) / to_float len))
  in
  let alpha :=
    adjustment_alpha
      (outcome_state (snd (Rounded.tick low solar_elevation opts env s))) in
  let target :=
    Rounded.calculate_temp low (solar_elevation now (lat opts) (lon opts))
                           (temp_day opts) (temp_night opts) in
  alpha = to_float (MAX 0 (MIN (if short_trans_begin a then remaining
                                else to_float (to_double (1 - remaining))) 1))
  /\
  (~ len == 0 ->
   (short_trans_end a - now) / len
   == 1 - (now - (short_trans_end a - len)) / len) /\
  (forall t,
     In (EvSetTemperature t)
        (fst (Rounded.tick low solar_elevation opts env s)) ->
     t = double_to_int
           (to_double (to_float (alpha * to_float NEUTRAL_TEMP)
                       + to_double (to_double (1 - alpha) * inject_Z target))))
  /\
  (now <= short_trans_end a ->
   In (EvSetTemperature
         (double_to_int
            (to_double (to_float (alpha * to_float NEUTRAL_TEMP)
                        + to_double (to_double (1 - alpha) * inject_Z target)))))
      (fst (Rounded.tick low solar_elevation opts env s))).
Proof.
  intros E A. cbv zeta. rewrite (rounded_tick_outcome_state env now s E).
  split; [| split; [| split]].
  - rewrite rounded_tick_state_alpha, A. unfold Rounded.fade_alpha.
    now destruct (short_trans_begin _).
  - intro Hl. field. exact Hl.
  - intros t H.
    rewrite (rounded_set_temperature_in_tick env now s t E H).
    unfold Rounded.tick_temp, Rounded.blend. reflexivity.
  - intro Hle. apply Qltb_ge in Hle.
    assert (S' : short_trans (Rounded.tick_state opts env now s) = true).
    { now rewrite rounded_tick_state_short_trans, A, Hle. }
    rewrite (rounded_tick_clock_read env now s E). cbv zeta.
    rewrite S'. cbn [negb]. rewrite andb_false_r, orb_true_r.
    unfold Rounded.tick_temp, Rounded.blend.
    destruct (env_set_ok env); cbn [fst]; apply in_or_app; right; left;
      reflexivity.
Qed.

End RoundedLoop.

Lemma fade_fraction_of_rounded_tick_witness :
  adjustment_alpha
    (outcome_state
       (snd (Rounded.scenario_tick true (env_quiet 2)
               (Rounded.state_after true [env_quiet 0]))))
    = 13421773 # 16777216 /\
  In (EvSetTemperature 6299)
     (fst (Rounded.scenario_tick true (env_quiet 2)
             (Rounded.state_after true [env_quiet 0]))).
Proof.
  destruct (fade_fraction_of_rounded_tick
              civil_twilight_elev daylight (scenario_opts true)
              (env_quiet 2) 2 (Rounded.state_after true [env_quiet 0])
              eq_refl eq_refl)
    as (H1 & _ & _ & H4).
  split.
  - unfold Rounded.scenario_tick. rewrite H1. vm_compute. reflexivity.
  - assert (Hle : 2 <= short_trans_end
                        (Rounded.armed_state (scenario_opts true) (env_quiet 2) 2
                           (Rounded.state_after true [env_quiet 0])))
      by (vm_compute; discriminate).
    apply H4 in Hle. unfold Rounded.scenario_tick.
    revert Hle. rewrite H1.
    match goal with
    | |- In (EvSetTemperature ?t) _ -> _ =>
        replace t with 6299%Z by (vm_compute; reflexivity)
    end.
    exact (fun h => h).
Defined.

(** C3 as stated fails, for two reasons.  A disable signal at time 0
    starts a transition of 2 seconds toward neutral; half a second later
    the elapsed time over the duration is 1/4.  The specification's
    reading inverts it to 3/4 and would apply 6250 K; the code has the
    fraction 1/4 and applies 5750 K.  And the arithmetic is that of
    [float] and [double]: two seconds into the 10 seconds of the start-up
    transition the fraction is the [float] next to 0.8 and the code
    applies 6299 K, where the formula gives 6300 K exactly. *)
Lemma fade_fraction_rounded_not_as_stated :
  short_trans (Rounded.state_after true [env_disable 0]) = true /\
  short_trans_begin (Rounded.state_after true [env_disable 0]) = false /\
  short_trans_end (Rounded.state_after true [env_disable 0]) == 2 /\
  short_trans_len (Rounded.state_after true [env_disable 0]) = 2%Z /\
  adjustment_alpha
    (Rounded.state_after true [env_disable 0; env_quiet (1 # 2)]) == 1 # 4 /\
  spec_fade_alpha ((1 # 2) - 0) 2 true == 3 # 4 /\
  fst (Rounded.scenario_tick true (env_quiet (1 # 2))
         (Rounded.state_after true [env_disable 0]))
    = [EvSetTemperature 5750; EvSleep 100000] /\
  double_to_int (spec_fade_alpha ((1 # 2) - 0) 2 true * 6500
                 + (1 - spec_fade_alpha ((1 # 2) - 0) 2 true) * inject_Z 5500)
    = 6250%Z /\
  short_trans_end (Rounded.state_after true [env_quiet 0]) == 10 /\
  adjustment_alpha (Rounded.state_after true [env_quiet 0; env_quiet 2])
    = 13421773 # 16777216 /\
  ~ adjustment_alpha (Rounded.state_after true [env_quiet 0; env_quiet 2])
    == 8 # 10 /\
  fst (Rounded.scenario_tick true (env_quiet 2)
         (Rounded.state_after true [env_quiet 0]))
    = [EvSetTemperature 6299; EvSleep 100000] /\
  (8 # 10) * 6500 + (1 - (8 # 10)) * inject_Z 5500 == 6300.
Proof.
  split; [vm_compute; reflexivity |].
  split; [vm_compute; reflexivity |].
  split; [vm_compute; reflexivity |].
  split; [vm_compute; reflexivity |].
  split; [vm_compute; reflexivity |].
  split; [vm_compute; reflexivity |].
  split; [vm_compute; reflexivity |].
  split; [vm_compute; reflexivity |].
  split; [vm_compute; reflexivity |].
  split; [vm_compute; reflexivity |].
  split; [intro H; vm_compute in H; discriminate H |].
  split; vm_compute; reflexivity.
Qed.

(** * Further properties of the engine *)

(** ** Runs of the loop, continued *)

Section EngineRuns.

Variable low : Q.
Variable solar_elevation : Q -> Q -> Q -> Q.
Variable opts : rs_opts.

Lemma tick_break (env : tick_env) (s : loop_state) (evs : list event)
    (s' : loop_state) :
  tick low solar_elevation opts env s = (evs, Break s') ->
  exists now,
    env_time env = Some now /\
    evs = tick_restored opts env now s /\
    s' = tick_state opts env now s.
Proof.
  intro H. destruct (env_time env) as [now |] eqn:E.
  - exists now. split; [reflexivity |].
    rewrite (tick_clock_read low solar_elevation opts env now s E) in H.
    cbv zeta in H.
    destruct (done _ && negb _).
    + injection H as <- <-. split; reflexivity.
    + destruct (negb _ || _); [destruct (env_set_ok env) |]; discriminate.
  - rewrite (tick_clock_failure low solar_elevation opts env s E) in H.
    discriminate.
Qed.

(** X4: whenever [do_continous] returns, it returns 0, its last backend
    call is [gamma_state_restore], and it has not called
    [gamma_state_free]: releasing the backend is left to the caller. *)
Theorem normal_return_restores_last (envs : list tick_env)
    (evs : list event) (r : Z) :
  do_continous low solar_elevation opts envs = (evs, Returned r) ->
  r = 0%Z /\
  (exists before, evs = before ++ [EvRestore]) /\
  ~ In EvFree evs.
Proof.
  unfold do_continous. generalize init_state. revert evs r.
  induction envs as [| env envs IH]; intros evs r s H; cbn [loop] in H.
  - discriminate.
  - destruct (tick low solar_elevation opts env s) as [evs0 o] eqn:Et.
    destruct o as [s' | s' | s'].
    + destruct (loop low solar_elevation opts envs s') as [evs1 r1] eqn:El.
      injection H as <- ->.
      destruct (IH evs1 r s' El) as (Hr & [before Hb] & Hf).
      split; [exact Hr |]. split.
      * exists (evs0 ++ before). rewrite Hb. now rewrite app_assoc.
      * intro Hin. apply in_app_or in Hin. destruct Hin as [Hin | Hin]; auto.
        now apply (tick_continue_frees_nothing
                     low solar_elevation opts env s evs0 s' Et).
    + injection H as <- <-. split; [reflexivity |]. split.
      * now exists evs0.
      * destruct (tick_break env s evs0 s' Et) as (now & _ & -> & _).
        intro Hin. apply in_app_or in Hin.
        destruct Hin as [Hin | [Hin | []]]; [| discriminate].
        now apply (restored_frees_nothing low solar_elevation opts env now s).
    + discriminate.
Qed.

Lemma tick_breaks (env : tick_env) (now : Q) (s : loop_state)
    (rest : list tick_env) :
  env_time env = Some now ->
  done (tick_state opts env now s) = true ->
  short_trans (tick_state opts env now s) = false ->
  exists evs,
    loop low solar_elevation opts (env :: rest) s
      = (evs ++ [EvRestore], Returned 0) /\
    existsb is_set_temperature evs = false.
Proof.
  intros E Dn S.
  exists (tick_restored opts env now s).
  split; [| apply restored_sets_no_temperature].
  cbn [loop]. rewrite (tick_clock_read low solar_elevation opts env now s E).
  cbv zeta. now rewrite Dn, S.
Qed.

(** X5: once a stop has been seen ([done] set), the loop ends on the
    first iteration without signals whose clock is past the end of the
    fade, or at once when no fade is in flight: it sets no temperature
    there, makes its final restore and returns. *)
Theorem fade_out_ends_loop (env : tick_env) (now : Q) (s : loop_state)
    (rest : list tick_env) :
  reachable low solar_elevation opts s ->
  done s = true ->
  sig_disable env = false -> sig_exiting env = false ->
  env_time env = Some now ->
  (short_trans s = true -> short_trans_end s < now) ->
  exists evs,
    loop low solar_elevation opts (env :: rest) s
      = (evs ++ [EvRestore], Returned 0) /\
    existsb is_set_temperature evs = false.
Proof.
  intros R Dn Hd He E Hover.
  destruct (reachable_inv low solar_elevation opts s R) as (I1 & I2 & I3 & I4).
  apply (tick_breaks env now s rest E).
  - now rewrite tick_state_done, Dn.
  - rewrite tick_state_short_trans.
    destruct (transition opts) eqn:T.
    + assert (C : short_trans_create s = false).
      { destruct (short_trans_create s) eqn:C; [| reflexivity].
        destruct (I2 eq_refl eq_refl) as [Dn' _]. congruence. }
      rewrite (armed_quiet opts env now s Hd He C).
      destruct (short_trans s) eqn:St; [| reflexivity].
      assert (Hlt := Hover eq_refl). apply Qltb_lt in Hlt. now rewrite Hlt.
    + now rewrite (armed_short_trans_without_transitions
                     opts env now s T (I3 eq_refl)).
Qed.

(** X6: stopping while disabled and idle ends the loop on that very
    iteration: no fade is started and no temperature is set. *)
Theorem stop_while_disabled_ends_loop (env : tick_env) (now : Q)
    (s : loop_state) (rest : list tick_env) :
  reachable low solar_elevation opts s ->
  disabled s = true -> short_trans s = false ->
  sig_exiting env = true -> sig_disable env = false ->
  env_time env = Some now ->
  exists evs,
    loop low solar_elevation opts (env :: rest) s
      = (evs ++ [EvRestore], Returned 0) /\
    existsb is_set_temperature evs = false.
Proof.
  intros R Dis St He Hd E.
  destruct (reachable_inv low solar_elevation opts s R) as (I1 & I2 & I3 & I4).
  apply (tick_breaks env now s rest E).
  - rewrite tick_state_done, He. apply orb_true_r.
  - rewrite tick_state_short_trans. unfold armed_state.
    rewrite setup_short_trans, poll_short_trans, poll_short_trans_create.
    rewrite St, Dis, Hd, He. cbn [andb orb xorb negb].
    rewrite andb_false_r, !orb_false_r.
    destruct (transition opts) eqn:T, (short_trans_create s) eqn:C;
      try reflexivity.
    destruct (I2 eq_refl eq_refl) as [_ Dis']. congruence.
Qed.




Lemma reachable_create_without_transitions (s : loop_state) :
  transition opts = false ->
  reachable low solar_elevation opts s ->
  short_trans_create s = true.
Proof.
  intro T. induction 1 as [| s env evs s' _ IH Ht].
  - reflexivity.
  - destruct (tick_continue low solar_elevation opts env s evs s' Ht)
      as (now & _ & ->).
    rewrite tick_state_short_trans_create, poll_short_trans_create, IH, T.
    reflexivity.
Qed.

(** X8: with transitions switched off, an iteration that ends disabled
    calls [gamma_state_restore] again, every time, and sets no
    temperature. *)
Theorem restore_repeats_without_transitions (env : tick_env) (now : Q)
    (s : loop_state) :
  transition opts = false ->
  reachable low solar_elevation opts s ->
  env_time env = Some now ->
  xorb (disabled s) (sig_disable env) = true ->
  In EvRestore (fst (tick low solar_elevation opts env s)) /\
  existsb is_set_temperature (fst (tick low solar_elevation opts env s))
    = false.
Proof.
  intros T R E Dis.
  assert (C := reachable_create_without_transitions s T R).
  destruct (reachable_inv low solar_elevation opts s R) as (I1 & I2 & I3 & I4).
  assert (D' : disabled (tick_state opts env now s) = true)
    by now rewrite tick_state_disabled.
  assert (S' : short_trans (tick_state opts env now s) = false).
  { rewrite tick_state_short_trans.
    now rewrite (armed_short_trans_without_transitions
                   opts env now s T (I3 T)). }
  assert (Rs : tick_restored opts env now s = [EvRestore]).
  { rewrite tick_restored_cases, D', ongoing_short_trans_done.
    unfold armed_state at 1.
    rewrite setup_short_trans_done, poll_short_trans_create, C, T.
    cbn [orb andb negb]. now rewrite orb_true_r. }
  rewrite (tick_clock_read low solar_elevation opts env now s E). cbv zeta.
  rewrite Rs, D', S'. cbn [negb orb andb app].
  destruct (done _ && true); cbn [fst existsb is_set_temperature orb In].
  - auto.
  - unfold tick_sleep. rewrite S'. cbn. auto.
Qed.

Lemma restored_never_sleeps (env : tick_env) (now : Q) (s : loop_state) :
  existsb is_sleep (tick_restored opts env now s) = false.
Proof.
  destruct (tick_restored_shape opts env now s) as [-> | ->]; reflexivity.
Qed.

(** X9: an iteration that goes on to the next one sleeps exactly once, as
    its last action: 100 ms when a short transition is in flight at that
    point, 5 s otherwise.  An iteration that leaves the loop does not
    sleep. *)
Theorem tick_sleeps_at_end (env : tick_env) (s : loop_state)
    (evs : list event) (o : outcome) :
  tick low solar_elevation opts env s = (evs, o) ->
  match o with
  | Continue s' =>
      exists before,
        evs = before
              ++ [EvSleep (if short_trans s' then 100000 else 5000000)] /\
        existsb is_sleep before = false
  | Break _ | Fatal _ => existsb is_sleep evs = false
  end.
Proof.
  intro H. destruct (env_time env) as [now |] eqn:E.
  - rewrite (tick_clock_read low solar_elevation opts env now s E) in H.
    cbv zeta in H.
    assert (Rs := restored_never_sleeps env now s).
    assert (Sl : forall s', tick_sleep s'
                = EvSleep (if short_trans s' then 100000 else 5000000)).
    { intro s'. unfold tick_sleep. now destruct (short_trans s'). }
    destruct (done _ && negb _).
    + injection H as <- <-. exact Rs.
    + destruct (negb _ || _).
      * destruct (env_set_ok env); injection H as <- <-.
        -- exists (tick_restored opts env now s
                   ++ [EvSetTemperature
                         (tick_temp low solar_elevation opts env now s)]).
           rewrite <- app_assoc. cbn [app]. rewrite Sl.
           split; [reflexivity |].
           rewrite existsb_app, Rs. reflexivity.
        -- rewrite existsb_app, Rs. reflexivity.
      * injection H as <- <-.
        exists (tick_restored opts env now s). rewrite Sl.
        split; [reflexivity | exact Rs].
  - rewrite (tick_clock_failure low solar_elevation opts env s E) in H.
    injection H as <- <-. reflexivity.
Qed.

(** X10: in one-shot mode [main] never restores the saved ramps and
    releases the backend exactly once, as its last backend call, whether
    the adjustment succeeds or not; it ends in success exactly when the
    clock could be read and the backend accepted the temperature. *)
Theorem main_oneshot_frees_once (gui : list event) (time : option Q)
    (set_ok : bool) :
  one_shot opts = true ->
  (exists before,
     fst (main_after_init low solar_elevation gui opts time set_ok)
       = before ++ [EvFree] /\
     existsb is_free before = false) /\
  existsb is_restore
    (fst (main_after_init low solar_elevation gui opts time set_ok)) = false /\
  (snd (main_after_init low solar_elevation gui opts time set_ok)
     = Returned EXIT_SUCCESS
   <-> time <> None /\ set_ok = true).
Proof.
  intro One. unfold main_after_init, do_oneshot. rewrite One.
  destruct time as [now |]; [destruct set_ok |]; cbn [Z.eqb fst snd app].
  - split; [| split].
    + eexists [_]. split; reflexivity.
    + reflexivity.
    + split; [intros _; split; [discriminate | reflexivity] | reflexivity].
  - split; [| split].
    + eexists [_]. split; reflexivity.
    + reflexivity.
    + split; [discriminate | intros [_ H]; discriminate].
  - split; [| split].
    + exists []. split; reflexivity.
    + reflexivity.
    + split; [discriminate | intros [H _]; now contradiction H].
Qed.

End EngineRuns.

Lemma normal_return_restores_last_witness :
  0%Z = 0%Z /\
  (exists before,
     fst (scenario_run true [env_stop 0; env_quiet 3])
       = before ++ [EvRestore]) /\
  ~ In EvFree (fst (scenario_run true [env_stop 0; env_quiet 3])).
Proof.
  apply (normal_return_restores_last
           civil_twilight_elev daylight (scenario_opts true)
           [env_stop 0; env_quiet 3]).
  vm_compute. reflexivity.
Defined.

Lemma fade_out_ends_loop_witness :
  exists evs,
    scenario_loop true [env_quiet 3] (state_after true [env_stop 0])
      = (evs ++ [EvRestore], Returned 0) /\
    existsb is_set_temperature evs = false.
Proof.
  apply (fade_out_ends_loop
           civil_twilight_elev daylight (scenario_opts true)
           (env_quiet 3) 3 (state_after true [env_stop 0]) []);
    try reflexivity.
  apply reachable_after_stop.
Defined.

Lemma stop_while_disabled_ends_loop_witness :
  exists evs,
    scenario_loop true [env_stop 5]
      (state_after true [env_disable 0; env_quiet 3])
      = (evs ++ [EvRestore], Returned 0) /\
    existsb is_set_temperature evs = false.
Proof.
  apply (stop_while_disabled_ends_loop
           civil_twilight_elev daylight (scenario_opts true)
           (env_stop 5) 5 (state_after true [env_disable 0; env_quiet 3]) []);
    try reflexivity.
  apply reachable_disabled_idle.
Defined.


Lemma reachable_disabled_without_transitions :
  scenario_reachable false (state_after false [env_disable 0]).
Proof.
  apply (reachable_step false [] (env_disable 0)); [apply reach_init |].
  eexists. vm_compute. reflexivity.
Qed.

Lemma restore_repeats_without_transitions_witness :
  In EvRestore
     (fst (scenario_tick false (env_quiet 5)
                         (state_after false [env_disable 0]))) /\
  existsb is_set_temperature
     (fst (scenario_tick false (env_quiet 5)
                         (state_after false [env_disable 0]))) = false.
Proof.
  apply (restore_repeats_without_transitions
           civil_twilight_elev daylight (scenario_opts false)
           (env_quiet 5) 5 (state_after false [env_disable 0]));
    try reflexivity.
  apply reachable_disabled_without_transitions.
Defined.

Lemma tick_sleeps_at_end_witness :
  exists before,
    fst (scenario_tick true (env_quiet 0) init_state)
      = before ++ [EvSleep 100000] /\
    existsb is_sleep before = false.
Proof.
  apply (tick_sleeps_at_end
           civil_twilight_elev daylight (scenario_opts true)
           (env_quiet 0) init_state
           (fst (scenario_tick true (env_quiet 0) init_state))
           (Continue (state_after true [env_quiet 0]))).
  vm_compute. reflexivity.
Defined.

Lemma main_oneshot_frees_once_witness :
  (exists before,
     fst (main_after_init civil_twilight_elev daylight [] oneshot_opts
            (Some 0) true)
       = before ++ [EvFree] /\
     existsb is_free before = false) /\
  existsb is_restore
    (fst (main_after_init civil_twilight_elev daylight [] oneshot_opts
            (Some 0) true)) = false /\
  (snd (main_after_init civil_twilight_elev daylight [] oneshot_opts
          (Some 0) true)
     = Returned EXIT_SUCCESS
   <-> Some 0 <> None /\ true = true).
Proof.
  apply (main_oneshot_frees_once
           civil_twilight_elev daylight oneshot_opts [] (Some 0) true).
  reflexivity.
Defined.

(** * Adjustment methods *)

Section MethodFacts.

Variables ENABLE_RANDR ENABLE_VIDMODE ENABLE_WINGDI : bool.

Ltac method_tests :=
  unfold GAMMA_METHOD_RANDR, GAMMA_METHOD_VIDMODE, GAMMA_METHOD_WINGDI in *.

Lemma method_in_range (method : Z) :
  method = 0%Z \/ method = 1%Z \/ method = 2%Z \/
  ((method =? 0)%Z = false /\ (method =? 1)%Z = false /\
   (method =? 2)%Z = false).
Proof.
  destruct (Z.eqb_spec method 0); [now left |].
  destruct (Z.eqb_spec method 1); [now right; left |].
  destruct (Z.eqb_spec method 2); [now right; right; left |].
  now right; right; right.
Qed.

Lemma method_case_sound (method : Z) (b : backend) :
  method_case ENABLE_RANDR ENABLE_VIDMODE ENABLE_WINGDI method = Some b ->
  method = method_of b /\
  backend_enabled ENABLE_RANDR ENABLE_VIDMODE ENABLE_WINGDI b = true.
Proof.
  unfold method_case. method_tests.
  destruct (method_in_range method) as [-> | [-> | [-> | (N0 & N1 & N2)]]].
  - destruct ENABLE_RANDR eqn:E1, ENABLE_VIDMODE eqn:E2, ENABLE_WINGDI eqn:E3;
      cbn; intro H; inversion H; subst; cbn; auto.
  - destruct ENABLE_RANDR eqn:E1, ENABLE_VIDMODE eqn:E2, ENABLE_WINGDI eqn:E3;
      cbn; intro H; inversion H; subst; cbn; auto.
  - destruct ENABLE_RANDR eqn:E1, ENABLE_VIDMODE eqn:E2, ENABLE_WINGDI eqn:E3;
      cbn; intro H; inversion H; subst; cbn; auto.
  - rewrite N0, N1, N2, !andb_false_r. discriminate.
Qed.

Lemma method_case_complete (b : backend) :
  backend_enabled ENABLE_RANDR ENABLE_VIDMODE ENABLE_WINGDI b = true ->
  method_case ENABLE_RANDR ENABLE_VIDMODE ENABLE_WINGDI (method_of b) = Some b.
Proof.
  unfold method_case, backend_enabled.
  destruct b, ENABLE_RANDR, ENABLE_VIDMODE, ENABLE_WINGDI; cbn;
    intro H; try discriminate H; reflexivity.
Qed.

Lemma init_method_requested (init_ok : backend -> bool) (method : Z)
    (b : backend) :
  method_case ENABLE_RANDR ENABLE_VIDMODE ENABLE_WINGDI method = Some b ->
  init_method ENABLE_RANDR ENABLE_VIDMODE ENABLE_WINGDI init_ok method
  = ([BkInit b],
     if init_ok b then InitReturned method else InitExited EXIT_FAILURE).
Proof.
  intro H. destruct (method_case_sound method b H) as [-> En].
  unfold init_method, init_block, backend_enabled in *.
  destruct b, ENABLE_RANDR, ENABLE_VIDMODE, ENABLE_WINGDI;
    try discriminate En; cbn;
    destruct (init_ok _); reflexivity.
Qed.

(** X11: when a method is requested (its backend being compiled in),
    [init_method] tries that backend and no other; if its init fails the
    program exits, otherwise the method is returned unchanged. *)
Theorem init_method_explicit (init_ok : backend -> bool) (method : Z)
    (b : backend) :
  method_case ENABLE_RANDR ENABLE_VIDMODE ENABLE_WINGDI method = Some b ->
  init_method ENABLE_RANDR ENABLE_VIDMODE ENABLE_WINGDI init_ok method
  = ([BkInit b],
     if init_ok b then InitReturned method else InitExited EXIT_FAILURE).
Proof.
  intro H. destruct (method_case_sound method b H) as [-> En].
  unfold init_method, init_block, backend_enabled in *.
  destruct b, ENABLE_RANDR, ENABLE_VIDMODE, ENABLE_WINGDI;
    try discriminate En; cbn;
    destruct (init_ok _); reflexivity.
Qed.

(** X12: when no method is requested (a negative [*method]), the backends
    compiled in are tried in the order RANDR, VidMode, WinGDI; the method
    returned is that of the first whose init succeeds, and the program
    exits exactly when none does. *)
Theorem init_method_probes_in_order (init_ok : backend -> bool) (method : Z) :
  (method < 0)%Z ->
  snd (init_method ENABLE_RANDR ENABLE_VIDMODE ENABLE_WINGDI init_ok method)
  = match find (fun b =>
                  backend_enabled ENABLE_RANDR ENABLE_VIDMODE ENABLE_WINGDI b
                  && init_ok b)
               [Randr; Vidmode; W32gdi] with
    | Some b => InitReturned (method_of b)
    | None => InitExited EXIT_FAILURE
    end.
Proof.
  intro Hneg.
  assert (L : (method <? 0)%Z = true) by now apply Z.ltb_lt.
  unfold init_method, init_block, backend_enabled. cbn [find].
  destruct (init_ok Randr), (init_ok Vidmode), (init_ok W32gdi),
    ENABLE_RANDR, ENABLE_VIDMODE, ENABLE_WINGDI;
    cbn; repeat (rewrite L; cbn); reflexivity.
Qed.

Ltac only_success :=
  let b' := fresh "b'" in
  let Hin := fresh "Hin" in
  let Hok := fresh "Hok" in
  intros b' Hin Hok; cbn [In] in Hin;
  repeat match goal with
         | H : _ \/ _ |- _ => destruct H
         | H : False |- _ => destruct H
         | H : BkInit _ = BkInit _ |- _ => injection H as <-
         end;
  congruence.

Lemma init_method_probed (init_ok : backend -> bool) (method : Z)
    (calls : list backend_call) (m : Z) :
  (method < 0)%Z ->
  init_method ENABLE_RANDR ENABLE_VIDMODE ENABLE_WINGDI init_ok method
    = (calls, InitReturned m) ->
  exists b,
    m = method_of b /\
    method_case ENABLE_RANDR ENABLE_VIDMODE ENABLE_WINGDI m = Some b /\
    init_ok b = true /\
    last calls (BkFree b) = BkInit b /\
    (forall b', In (BkInit b') calls -> init_ok b' = true -> b' = b).
Proof.
  intros Hneg H.
  assert (L : (method <? 0)%Z = true) by now apply Z.ltb_lt.
  unfold init_method, init_block, method_case in *.
  destruct (init_ok Randr) eqn:O1, (init_ok Vidmode) eqn:O2,
    (init_ok W32gdi) eqn:O3,
    ENABLE_RANDR, ENABLE_VIDMODE, ENABLE_WINGDI;
    cbn in H; repeat (rewrite L in H; cbn in H);
    try discriminate H; injection H as <- <-;
    first
      [ exists Randr; cbn;
        repeat (split; [solve [reflexivity | assumption] |]); only_success
      | exists Vidmode; cbn;
        repeat (split; [solve [reflexivity | assumption] |]); only_success
      | exists W32gdi; cbn;
        repeat (split; [solve [reflexivity | assumption] |]); only_success ].
Qed.

Lemma init_method_requested_ok (init_ok : backend -> bool) (method : Z)
    (calls : list backend_call) (m : Z) (b : backend) :
  method_case ENABLE_RANDR ENABLE_VIDMODE ENABLE_WINGDI method = Some b ->
  init_method ENABLE_RANDR ENABLE_VIDMODE ENABLE_WINGDI init_ok method
    = (calls, InitReturned m) ->
  m = method /\ calls = [BkInit b] /\ init_ok b = true.
Proof.
  intros Hc H.
  rewrite (init_method_requested init_ok method b Hc) in H.
  destruct (init_ok b); [| discriminate H].
  injection H as <- <-. repeat split.
Qed.

(** X13: when [init_method] returns, with [*method] on entry negative or
    naming a backend that is compiled in, the method it returns names a
    compiled-in backend whose init succeeded; that init is its last call
    and the only one that succeeded. *)
Theorem init_method_returns_initialised (init_ok : backend -> bool)
    (method : Z) (calls : list backend_call) (m : Z) :
  (method < 0)%Z \/
  method_case ENABLE_RANDR ENABLE_VIDMODE ENABLE_WINGDI method <> None ->
  init_method ENABLE_RANDR ENABLE_VIDMODE ENABLE_WINGDI init_ok method
    = (calls, InitReturned m) ->
  exists b,
    m = method_of b /\
    method_case ENABLE_RANDR ENABLE_VIDMODE ENABLE_WINGDI m = Some b /\
    init_ok b = true /\
    last calls (BkFree b) = BkInit b /\
    (forall b', In (BkInit b') calls -> init_ok b' = true -> b' = b).
Proof.
  intros [Hneg | Hreq] H.
  - (* probing *)
    apply (init_method_probed init_ok method calls m Hneg H).
  - (* a method was requested *)
    destruct (method_case ENABLE_RANDR ENABLE_VIDMODE ENABLE_WINGDI method)
      as [b |] eqn:Hc; [| now contradiction Hreq].
    destruct (init_method_requested_ok init_ok method calls m b Hc H)
      as (-> & -> & Ok).
    destruct (method_case_sound method b Hc) as [Hm _].
    exists b. repeat (split; [solve [reflexivity | assumption] |]).
    intros b' [Hin | []] _. now injection Hin.
Qed.

End MethodFacts.

(** * Options *)

Section OptionFacts.

Variable atof : string -> Q.
Variable atoi : string -> Z.
Variables ENABLE_RANDR ENABLE_VIDMODE ENABLE_WINGDI : bool.

(** Case analysis on the option letter, for a goal about one
    [Options.parse_option]. *)
Ltac by_letter opt :=
  unfold Options.parse_option;
  repeat (match goal with
          | |- context [Ascii.eqb opt ?c] =>
              destruct (Ascii.eqb_spec opt c) as [-> | ?]
          end; cbv iota).

Lemma parse_method_sound (optarg : string) (m : Z) :
  Options.parse_method ENABLE_RANDR ENABLE_VIDMODE ENABLE_WINGDI optarg
    = Some m ->
  exists b,
    method_case ENABLE_RANDR ENABLE_VIDMODE ENABLE_WINGDI m = Some b.
Proof.
  unfold Options.parse_method.
  destruct (_ || _).
  - destruct ENABLE_RANDR eqn:E; [| discriminate].
    intro H. injection H as <-. exists Randr.
    apply (method_case_complete true ENABLE_VIDMODE ENABLE_WINGDI Randr).
    reflexivity.
  - destruct (_ || _).
    + destruct ENABLE_VIDMODE eqn:E; [| discriminate].
      intro H. injection H as <-. exists Vidmode.
      apply (method_case_complete ENABLE_RANDR true ENABLE_WINGDI Vidmode).
      reflexivity.
    + destruct (_ || _); [| discriminate].
      destruct ENABLE_WINGDI eqn:E; [| discriminate].
      intro H. injection H as <-. exists W32gdi.
      apply (method_case_complete ENABLE_RANDR ENABLE_VIDMODE true W32gdi).
      reflexivity.
Qed.

Lemma parse_option_method (o o' : Options.rs_opts) (opt : ascii)
    (optarg : string) :
  method_known ENABLE_RANDR ENABLE_VIDMODE ENABLE_WINGDI o ->
  Options.parse_option atof atoi ENABLE_RANDR ENABLE_VIDMODE ENABLE_WINGDI
    o opt optarg = Options.Parsed o' ->
  method_known ENABLE_RANDR ENABLE_VIDMODE ENABLE_WINGDI o'.
Proof.
  intro K. by_letter opt;
    try (intro H; injection H as <-; exact K);
    try discriminate.
  - destruct (parse_gamma atof optarg); [| discriminate].
    intro H; injection H as <-; exact K.
  - destruct (strchr optarg ":"); [| discriminate].
    intro H; injection H as <-; exact K.
  - destruct (Options.parse_method _ _ _ optarg) as [m |] eqn:Hm;
      [| discriminate].
    intro H; injection H as <-. right. cbn.
    apply (parse_method_sound optarg m Hm).
  - destruct (strchr optarg ":"); [| discriminate].
    intro H; injection H as <-; exact K.
Qed.

Lemma parse_option_location (o o' : Options.rs_opts) (opt : ascii)
    (optarg : string) :
  opt <> "l"%char ->
  Options.lat o = None ->
  Options.parse_option atof atoi ENABLE_RANDR ENABLE_VIDMODE ENABLE_WINGDI
    o opt optarg = Options.Parsed o' ->
  Options.lat o' = None.
Proof.
  intros Hl K. by_letter opt;
    try (intro H; injection H as <-; exact K);
    try discriminate.
  - destruct (parse_gamma atof optarg); [| discriminate].
    intro H; injection H as <-; exact K.
  - now contradiction Hl.
  - destruct (Options.parse_method _ _ _ optarg); [| discriminate].
    intro H; injection H as <-; exact K.
  - destruct (strchr optarg ":"); [| discriminate].
    intro H; injection H as <-; exact K.
Qed.

Lemma getopt_loop_method (args : list (ascii * string)) :
  forall o o',
    method_known ENABLE_RANDR ENABLE_VIDMODE ENABLE_WINGDI o ->
    Options.getopt_loop atof atoi ENABLE_RANDR ENABLE_VIDMODE ENABLE_WINGDI
      args o = Options.Parsed o' ->
    method_known ENABLE_RANDR ENABLE_VIDMODE ENABLE_WINGDI o'.
Proof.
  induction args as [| [opt optarg] args IH]; intros o o' K H;
    cbn [Options.getopt_loop] in H.
  - injection H as <-. exact K.
  - destruct (Options.parse_option _ _ _ _ _ o opt optarg) as [o1 |] eqn:E;
      [| discriminate].
    apply (IH o1 o' (parse_option_method o o1 opt optarg K E) H).
Qed.

Lemma getopt_loop_location (args : list (ascii * string)) :
  forall o o',
    (forall opt optarg, In (opt, optarg) args -> opt <> "l"%char) ->
    Options.lat o = None ->
    Options.getopt_loop atof atoi ENABLE_RANDR ENABLE_VIDMODE ENABLE_WINGDI
      args o = Options.Parsed o' ->
    Options.lat o' = None.
Proof.
  induction args as [| [opt optarg] args IH]; intros o o' Hl K H;
    cbn [Options.getopt_loop] in H.
  - injection H as <-. exact K.
  - destruct (Options.parse_option _ _ _ _ _ o opt optarg) as [o1 |] eqn:E;
      [| discriminate].
    apply (IH o1 o').
    + intros opt' optarg' Hin. apply (Hl opt' optarg'). now right.
    + apply (parse_option_location o o1 opt optarg); auto.
      apply (Hl opt optarg). now left.
    + exact H.
Qed.

Lemma check_options_same (o o' : Options.rs_opts) :
  Options.check_options o = Options.Parsed o' -> o' = o.
Proof.
  unfold Options.check_options.
  destruct (Options.lat o), (Options.lon o); try discriminate.
  repeat (match goal with
          | |- context [if ?c then _ else _] => destruct c
          end; try discriminate).
  intro H. now injection H.
Qed.

(** X14: without a [-l] option [parse_options] never returns: the
    program exits, whatever other options are given. *)
Theorem location_is_mandatory (args : list (ascii * string)) :
  (forall opt optarg, In (opt, optarg) args -> opt <> "l"%char) ->
  exists status,
    Options.parse_options atof atoi ENABLE_RANDR ENABLE_VIDMODE ENABLE_WINGDI
      args = Options.Exit status.
Proof.
  intro Hl. unfold Options.parse_options.
  destruct (Options.getopt_loop _ _ _ _ _ args Options.defaults)
    as [o | status] eqn:E.
  - assert (K : Options.lat o = None).
    { apply (getopt_loop_location args Options.defaults o Hl eq_refl E). }
    unfold Options.check_options. rewrite K. now exists EXIT_FAILURE.
  - now exists status.
Qed.

(** X15: when [parse_options] returns, latitude and longitude are set and
    within [-90,90] and [-180,180], both temperatures are in
    [MIN_TEMP, MAX_TEMP), the three gamma values are in [0.1, 10], and a
    CRTC is selected only with the RANDR method. *)
Theorem parse_options_validated (args : list (ascii * string))
    (o : Options.rs_opts) :
  Options.parse_options atof atoi ENABLE_RANDR ENABLE_VIDMODE ENABLE_WINGDI
    args = Options.Parsed o ->
  (exists la lo,
     Options.lat o = Some la /\ Options.lon o = Some lo /\
     MIN_LAT <= la <= MAX_LAT /\ MIN_LON <= lo <= MAX_LON) /\
  (MIN_TEMP <= Options.temp_day o < MAX_TEMP)%Z /\
  (MIN_TEMP <= Options.temp_night o < MAX_TEMP)%Z /\
  (forall k, MIN_GAMMA <= gamma_slot k (Options.gamma o) <= MAX_GAMMA) /\
  ((-1 < Options.crtc_num o)%Z -> Options.method o = GAMMA_METHOD_RANDR).
Proof.
  unfold Options.parse_options.
  destruct (Options.getopt_loop _ _ _ _ _ args Options.defaults)
    as [o1 | status]; [| discriminate].
  intro H. assert (E := check_options_same o1 o H). subst o1.
  unfold Options.check_options, Options.out_of in H.
  destruct (Options.lat o) as [la |], (Options.lon o) as [lo |];
    try discriminate.
  destruct (Qltb la MIN_LAT || Qltb MAX_LAT la) eqn:C1; [discriminate |].
  destruct (Qltb lo MIN_LON || Qltb MAX_LON lo) eqn:C2; [discriminate |].
  destruct ((Options.temp_day o <? MIN_TEMP)%Z
            || (MAX_TEMP <=? Options.temp_day o)%Z) eqn:C3; [discriminate |].
  destruct ((Options.temp_night o <? MIN_TEMP)%Z
            || (MAX_TEMP <=? Options.temp_night o)%Z) eqn:C4; [discriminate |].
  destruct (_ || _ || _) eqn:C5 in H; [discriminate |].
  destruct ((-1 <? Options.crtc_num o)%Z
            && negb (Options.method o =? GAMMA_METHOD_RANDR)%Z) eqn:C6;
    [discriminate |].
  clear H.
  apply orb_false_elim in C1, C2, C3, C4, C5.
  destruct C1 as [C1a C1b], C2 as [C2a C2b], C3 as [C3a C3b],
    C4 as [C4a C4b], C5 as [C5 C5c].
  apply orb_false_elim in C5. destruct C5 as [C5a C5b].
  apply orb_false_elim in C5a, C5b, C5c.
  destruct C5a as [G0a G0b], C5b as [G1a G1b], C5c as [G2a G2b].
  apply Qltb_ge in C1a, C1b, C2a, C2b, G0a, G0b, G1a, G1b, G2a, G2b.
  apply Z.ltb_ge in C3a, C4a. apply Z.leb_gt in C3b, C4b.
  split; [| split; [| split; [| split]]].
  - exists la, lo. repeat split; assumption.
  - lia.
  - lia.
  - intro k. destruct (Options.gamma o) as [[g0 g1] g2].
    destruct k as [| [| k]]; cbn [gamma_slot] in *; split; assumption.
  - intro Hc. apply Z.ltb_lt in Hc. rewrite Hc in C6. cbn [andb] in C6.
    apply negb_false_iff in C6. now apply Z.eqb_eq.
Qed.

Lemma parse_options_method (args : list (ascii * string))
    (o : Options.rs_opts) :
  Options.parse_options atof atoi ENABLE_RANDR ENABLE_VIDMODE ENABLE_WINGDI
    args = Options.Parsed o ->
  method_known ENABLE_RANDR ENABLE_VIDMODE ENABLE_WINGDI o.
Proof.
  unfold Options.parse_options.
  destruct (Options.getopt_loop _ _ _ _ _ args Options.defaults)
    as [o1 | status] eqn:E; [| discriminate].
  intro H. assert (Eo := check_options_same o1 o H). subst o1.
  apply (getopt_loop_method args Options.defaults o); [| exact E].
  left. reflexivity.
Qed.

Lemma last_in (l : list backend_call) (d x : backend_call) :
  last l d = x -> l <> [] -> In x l.
Proof.
  induction l as [| y [| z l] IH]; intros H Hne.
  - now contradiction Hne.
  - left. exact H.
  - right. apply IH; [exact H | discriminate].
Qed.

(** X16: once [parse_options] and then [init_method] have returned, the
    method names a compiled-in backend whose init succeeded, and
    [gamma_state_set_temperature], [gamma_state_restore] and
    [gamma_state_free] all reach that backend, never the [default]
    case. *)
Theorem dispatch_reaches_initialised_backend (args : list (ascii * string))
    (o : Options.rs_opts) (init_ok : backend -> bool)
    (calls : list backend_call) (m : Z) :
  Options.parse_options atof atoi ENABLE_RANDR ENABLE_VIDMODE ENABLE_WINGDI
    args = Options.Parsed o ->
  init_method ENABLE_RANDR ENABLE_VIDMODE ENABLE_WINGDI init_ok
    (Options.method o) = (calls, InitReturned m) ->
  exists b,
    init_ok b = true /\ In (BkInit b) calls /\
    (forall result temp,
       gamma_state_set_temperature ENABLE_RANDR ENABLE_VIDMODE ENABLE_WINGDI
         result m temp = ([BkSetTemperature b temp], result b)) /\
    gamma_state_restore ENABLE_RANDR ENABLE_VIDMODE ENABLE_WINGDI m
      = [BkRestore b] /\
    gamma_state_free ENABLE_RANDR ENABLE_VIDMODE ENABLE_WINGDI m = [BkFree b].
Proof.
  intros Hp Hi.
  assert (Hb : exists b,
             method_case ENABLE_RANDR ENABLE_VIDMODE ENABLE_WINGDI m = Some b
             /\ init_ok b = true /\ In (BkInit b) calls).
  { destruct (parse_options_method args o Hp) as [Hm | [b Hb]].
    - assert (Hneg : (Options.method o < 0)%Z) by (rewrite Hm; lia).
      destruct (init_method_probed ENABLE_RANDR ENABLE_VIDMODE ENABLE_WINGDI
                  init_ok (Options.method o) calls m Hneg Hi)
        as (b & _ & Hc & Ok & Hlast & _).
      exists b. split; [exact Hc |]. split; [exact Ok |].
      apply (last_in calls (BkFree b)); [exact Hlast |].
      intros ->. discriminate Hlast.
    - destruct (init_method_requested_ok ENABLE_RANDR ENABLE_VIDMODE
                  ENABLE_WINGDI init_ok (Options.method o) calls m b Hb Hi)
        as (-> & -> & Ok).
      exists b. split; [exact Hb |]. split; [exact Ok | now left]. }
  destruct Hb as (b & Hc & Ok & Hin).
  exists b. split; [exact Ok |]. split; [exact Hin |].
  unfold gamma_state_set_temperature, gamma_state_restore, gamma_state_free.
  rewrite Hc. repeat split; reflexivity.
Qed.

End OptionFacts.

(** * The VidMode backend *)

Section VidModeFacts.

Import VidMode.

Lemma overwrite_block (vals old post : list Z) :
  List.length vals = List.length old ->
  overwrite vals (old ++ post) = vals ++ post.
Proof.
  revert old. induction vals as [| v vals IH]; intros [| x old] H;
    try discriminate H; cbn [overwrite app].
  - now destruct post.
  - f_equal. apply IH. now injection H.
Qed.

Lemma write_at_block (pre vals old post : list Z) :
  List.length vals = List.length old ->
  write_at (List.length pre) vals (pre ++ old ++ post) = pre ++ vals ++ post.
Proof.
  intro H. induction pre as [| x pre IH]; cbn [write_at List.length app].
  - destruct (old ++ post) eqn:E; rewrite <- E; now apply overwrite_block.
  - now rewrite IH.
Qed.

Lemma slice_block (pre mid post : list Z) :
  slice (List.length pre) (List.length mid) (pre ++ mid ++ post) = mid.
Proof.
  unfold slice. rewrite skipn_app, skipn_all, Nat.sub_diag. cbn [skipn app].
  rewrite firstn_app, firstn_all, Nat.sub_diag. cbn [firstn].
  apply app_nil_r.
Qed.

Lemma three_blocks (n : nat) (buf : list Z) :
  List.length buf = (3 * n)%nat ->
  exists a b c,
    buf = a ++ b ++ c /\ List.length a = n /\ List.length b = n /\ List.length c = n.
Proof.
  intro H.
  exists (firstn n buf), (firstn n (skipn n buf)), (skipn n (skipn n buf)).
  rewrite !firstn_skipn. split; [reflexivity |].
  rewrite !length_firstn, !length_skipn. lia.
Qed.

(** Three ramps stored one after the other in a block of three times their
    List.length are read back unchanged through the same three pointers. *)
Lemma ramps_round_trip (n : nat) (r g b buf : list Z) :
  List.length r = n -> List.length g = n -> List.length b = n ->
  List.length buf = (3 * n)%nat ->
  let buf' :=
    write_at (2 * n) b (write_at (1 * n) g (write_at (0 * n) r buf)) in
  slice (0 * n) n buf' = r /\
  slice (1 * n) n buf' = g /\
  slice (2 * n) n buf' = b.
Proof.
  intros Hr Hg Hb Hbuf.
  destruct (three_blocks n buf Hbuf) as (a0 & b0 & c0 & -> & Ha & Hb0 & Hc).
  assert (W0 : write_at (0 * n) r (a0 ++ b0 ++ c0) = r ++ b0 ++ c0).
  { apply (write_at_block [] r a0 (b0 ++ c0)). lia. }
  assert (W1 : write_at (1 * n) g (r ++ b0 ++ c0) = r ++ g ++ c0).
  { rewrite Nat.mul_1_l, <- Hr. apply write_at_block. lia. }
  assert (W2 : write_at (2 * n) b (r ++ g ++ c0) = r ++ g ++ b).
  { assert (W := write_at_block (r ++ g) b c0 []).
    rewrite !app_nil_r, <- !app_assoc, length_app, Hr, Hg in W.
    replace (2 * n)%nat with (n + n)%nat by lia. apply W. lia. }
  cbv zeta. rewrite W0, W1, W2.
  split; [| split].
  - assert (S0 := slice_block [] r (g ++ b)).
    cbn [app List.length] in S0. now rewrite Hr in S0.
  - assert (S1 := slice_block r g b).
    rewrite Hr, Hg in S1. now rewrite Nat.mul_1_l.
  - assert (S2 := slice_block (r ++ g) b []).
    rewrite !app_nil_r, <- !app_assoc, length_app, Hr, Hg, Hb in S2.
    now replace (2 * n)%nat with (n + n)%nat by lia.
Qed.

Lemma server_entries_length (env : environment) (c : channel) (n : nat) :
  List.length (server_entries env c n) = n.
Proof. unfold server_entries. now rewrite length_map, length_seq. Qed.

Lemma fresh_buffer_length (junk : nat -> Z) (n : nat) :
  List.length (fresh_buffer junk n) = n.
Proof. unfold fresh_buffer. now rewrite length_map, length_seq. Qed.

Ltac init_paths env :=
  unfold vidmode_init;
  destruct (open_ok env), (query_ok env), (size_ok env),
    (Z.eqb_spec (server_ramp_size env) 0), (malloc_ok env), (get_ok env);
  cbn [negb fst snd blocks_held displays_held andb].

Lemma vidmode_init_display_held (screen : Z) (env : environment) :
  match snd (vidmode_init screen env) with
  | Some _ =>
      displays_held (fst (vidmode_init screen env)) = 1%Z /\
      blocks_held (fst (vidmode_init screen env)) = 1%Z
  | None => displays_held (fst (vidmode_init screen env)) = 0%Z
  end.
Proof. init_paths env; auto. Qed.

(** X17: [vidmode_init] holds the display and the block for the saved
    ramps when it succeeds; when it fails it has closed the display if it
    had opened it. *)
Theorem vidmode_init_display (screen : Z) (env : environment) :
  match snd (vidmode_init screen env) with
  | Some _ =>
      displays_held (fst (vidmode_init screen env)) = 1%Z /\
      blocks_held (fst (vidmode_init screen env)) = 1%Z
  | None => displays_held (fst (vidmode_init screen env)) = 0%Z
  end.
Proof.
  unfold vidmode_init.
  (* XOpenDisplay fails: nothing was opened *)
  destruct (open_ok env); cbn [negb]; [| reflexivity].
  (* each later failure ends in XCloseDisplay *)
  destruct (query_ok env); cbn [negb]; [| reflexivity].
  destruct (size_ok env); cbn [negb]; [| reflexivity].
  destruct (server_ramp_size env =? 0)%Z; [reflexivity |].
  destruct (malloc_ok env); cbn [negb]; [| reflexivity].
  destruct (get_ok env); cbn [negb]; [| reflexivity].
  (* success: the display stays open and the block is kept *)
  split; reflexivity.
Qed.

(** X18: a failed [vidmode_init] leaves the block for the saved ramps
    allocated exactly when it is the reading of the current ramps that
    failed: that path closes the display and does not free the block. *)
Theorem vidmode_init_failure_blocks (screen : Z) (env : environment) :
  snd (vidmode_init screen env) = None ->
  blocks_held (fst (vidmode_init screen env))
  = if open_ok env && query_ok env && size_ok env
       && negb (server_ramp_size env =? 0)%Z && malloc_ok env
    then 1%Z else 0%Z.
Proof.
  unfold vidmode_init.
  destruct (open_ok env), (query_ok env), (size_ok env),
    (server_ramp_size env =? 0)%Z, (malloc_ok env), (get_ok env);
    cbn [negb fst snd blocks_held displays_held andb];
    intro H; try discriminate H; reflexivity.
Qed.

(** X19: after a successful [vidmode_init], [vidmode_restore] sends the
    server exactly the three ramps that were in force when the backend
    was initialised. *)
Theorem vidmode_restore_round_trip (screen : Z) (env : environment)
    (calls : list x_call) (st : vidmode_state_t) :
  vidmode_init screen env = (calls, Some st) ->
  vidmode_restore st
  = [XF86VidModeSetGammaRamp (screen_num st) (ramp_size st)
       (server_entries env Red (Z.to_nat (ramp_size st)))
       (server_entries env Green (Z.to_nat (ramp_size st)))
       (server_entries env Blue (Z.to_nat (ramp_size st)))].
Proof.
  unfold vidmode_init.
  destruct (open_ok env), (query_ok env), (size_ok env),
    (server_ramp_size env =? 0)%Z, (malloc_ok env), (get_ok env);
    cbn [negb]; intro H; try discriminate H.
  injection H as _ <-. unfold vidmode_restore.
  cbn [screen_num ramp_size saved_ramps].
  set (n := Z.to_nat (server_ramp_size env)).
  destruct (ramps_round_trip n
              (server_entries env Red n) (server_entries env Green n)
              (server_entries env Blue n) (fresh_buffer (junk env) (3 * n))
              (server_entries_length env Red n)
              (server_entries_length env Green n)
              (server_entries_length env Blue n)
              (fresh_buffer_length (junk env) (3 * n)))
    as (R & G & B).
  f_equal. f_equal; [exact R | exact G | exact B].
Qed.

Lemma blocks_held_app (a b : list x_call) :
  blocks_held (a ++ b) = (blocks_held a + blocks_held b)%Z.
Proof.
  induction a as [| x a IH]; [reflexivity |].
  destruct x as [[|] | | | | | | ? ? [|] | ?];
    cbn [app blocks_held]; rewrite IH; ring.
Qed.

Lemma displays_held_app (a b : list x_call) :
  displays_held (a ++ b) = (displays_held a + displays_held b)%Z.
Proof.
  induction a as [| x a IH]; [reflexivity |].
  destruct x as [[|] | | | | | | ? ? [|] | ?];
    cbn [app displays_held]; rewrite IH; ring.
Qed.

Section Sessions.

Variable colorramp_fill : channel -> Z -> Z -> Q * Q * Q -> list Z.

Lemma set_temperature_balanced (st : vidmode_state_t) (u : adjustment) :
  blocks_held
    (fst (vidmode_set_temperature colorramp_fill st (adj_temp u)
            (adj_gamma u) (adj_alloc_ok u) (adj_fresh u) (adj_set_ok u)))
    = 0%Z /\
  displays_held
    (fst (vidmode_set_temperature colorramp_fill st (adj_temp u)
            (adj_gamma u) (adj_alloc_ok u) (adj_fresh u) (adj_set_ok u)))
    = 0%Z.
Proof.
  unfold vidmode_set_temperature.
  destruct (adj_alloc_ok u), (adj_set_ok u); cbn; auto.
Qed.

Lemma adjustments_balanced (st : vidmode_state_t) (uses : list adjustment) :
  blocks_held
    (flat_map (fun u =>
                 fst (vidmode_set_temperature colorramp_fill st (adj_temp u)
                        (adj_gamma u) (adj_alloc_ok u) (adj_fresh u)
                        (adj_set_ok u))) uses) = 0%Z /\
  displays_held
    (flat_map (fun u =>
                 fst (vidmode_set_temperature colorramp_fill st (adj_temp u)
                        (adj_gamma u) (adj_alloc_ok u) (adj_fresh u)
                        (adj_set_ok u))) uses) = 0%Z.
Proof.
  induction uses as [| u uses [IHb IHd]]; [split; reflexivity |].
  cbn [flat_map]. rewrite blocks_held_app, displays_held_app, IHb, IHd.
  destruct (set_temperature_balanced st u) as [-> ->]. split; reflexivity.
Qed.

(** X20: over a whole session, a successful init, any number of
    temperature adjustments whether they succeed or fail, then restore and
    free, every block allocated has been freed and the display has been
    closed. *)
Theorem vidmode_session_balanced (screen : Z) (env : environment)
    (calls : list x_call) (st : vidmode_state_t) (uses : list adjustment) :
  vidmode_init screen env = (calls, Some st) ->
  blocks_held (session_calls colorramp_fill calls st uses) = 0%Z /\
  displays_held (session_calls colorramp_fill calls st uses) = 0%Z.
Proof.
  intro H.
  assert (I := vidmode_init_display_held screen env).
  rewrite H in I. cbn [fst snd] in I. destruct I as [Id Ib].
  destruct (adjustments_balanced st uses) as [Ab Ad].
  unfold session_calls.
  rewrite !blocks_held_app, !displays_held_app, Ab, Ad, Id, Ib.
  split; reflexivity.
Qed.

End Sessions.

End VidModeFacts.

(** * Scenarios for the options and the backends *)

Local Open Scope string_scope.

(** X21: a gamma argument with exactly two components, [r:g], is
    malformed: [parse_options] exits with failure on it. *)
Theorem gamma_two_components_rejected (atof : string -> Q)
    (atoi : string -> Z) (E1 E2 E3 : bool) (o : Options.rs_opts)
    (r g : string) :
  strchr r ":" = None ->
  strchr g ":" = None ->
  parse_gamma atof (r ++ ":" ++ g) = None /\
  Options.parse_option atof atoi E1 E2 E3 o "g" (r ++ ":" ++ g)
    = Options.Exit EXIT_FAILURE.
Proof.
  intros Hr Hg.
  assert (P : parse_gamma atof (r ++ ":" ++ g) = None).
  { unfold parse_gamma. cbn [append].
    rewrite (strchr_first ":" r _ Hr), str_drop_prefix.
    now rewrite Hg. }
  split; [exact P |].
  unfold Options.parse_option. cbn [Ascii.eqb Bool.eqb]. now rewrite P.
Qed.

Lemma gamma_two_components_rejected_witness :
  parse_gamma text_length "1.0:0.85" = None /\
  Options.parse_option text_length decimal_value true true false
    Options.defaults "g" "1.0:0.85"
    = Options.Exit EXIT_FAILURE.
Proof.
  apply (gamma_two_components_rejected text_length decimal_value
           true true false Options.defaults "1.0" "0.85");
    reflexivity.
Defined.

Example parse_copenhagen :
  Options.parse_options text_length decimal_value true true false
    [("l"%char, "55.7:12.6"); ("t"%char, "5500:3700");
     ("m"%char, "vidmode"); ("o"%char, "")]
  = Options.Parsed
      {| Options.lat := Some 4; Options.lon := Some 4;
         Options.temp_day := 5500; Options.temp_night := 3700;
         Options.gamma := (1, 1, 1);
         Options.method := 1; Options.screen_num := -1;
         Options.crtc_num := -1;
         Options.transition := true; Options.one_shot := true;
         Options.verbose := false |}.
Proof. reflexivity. Qed.

Lemma init_method_explicit_witness :
  init_method true true false (fun _ => false) 1
  = ([BkInit Vidmode], InitExited EXIT_FAILURE).
Proof.
  apply (init_method_explicit true true false (fun _ => false) 1 Vidmode).
  reflexivity.
Defined.

Lemma init_method_probes_in_order_witness :
  snd (init_method true true false
         (fun b => match b with Randr => false | _ => true end) (-1))
  = InitReturned GAMMA_METHOD_VIDMODE.
Proof.
  apply (init_method_probes_in_order true true false
           (fun b => match b with Randr => false | _ => true end) (-1)).
  reflexivity.
Defined.

Lemma init_method_returns_initialised_witness :
  exists b,
    1%Z = method_of b /\
    method_case true true false 1 = Some b /\
    match b with Randr => false | _ => true end = true /\
    last [BkInit Randr; BkInit Vidmode] (BkFree b) = BkInit b /\
    (forall b',
       In (BkInit b') [BkInit Randr; BkInit Vidmode] ->
       match b' with Randr => false | _ => true end = true -> b' = b).
Proof.
  apply (init_method_returns_initialised true true false
           (fun b => match b with Randr => false | _ => true end) (-1)
           [BkInit Randr; BkInit Vidmode] 1).
  - left. reflexivity.
  - reflexivity.
Defined.

Lemma location_is_mandatory_witness :
  exists status,
    Options.parse_options text_length decimal_value true true false
      [("t"%char, "5500:3700"); ("v"%char, "")]
    = Options.Exit status.
Proof.
  apply (location_is_mandatory text_length decimal_value true true false
           [("t"%char, "5500:3700"); ("v"%char, "")]).
  intros opt optarg [H | [H | []]]; injection H as <- _; discriminate.
Defined.

Lemma parse_options_validated_witness :
  (exists la lo,
     Some 4 = Some la /\ Some 4 = Some lo /\
     MIN_LAT <= la <= MAX_LAT /\ MIN_LON <= lo <= MAX_LON) /\
  (MIN_TEMP <= 5500 < MAX_TEMP)%Z /\
  (MIN_TEMP <= 3700 < MAX_TEMP)%Z /\
  (forall k, MIN_GAMMA <= gamma_slot k (1, 1, 1) <= MAX_GAMMA) /\
  ((-1 < -1)%Z -> 1%Z = GAMMA_METHOD_RANDR).
Proof.
  apply (parse_options_validated text_length decimal_value true true false
           [("l"%char, "55.7:12.6"); ("t"%char, "5500:3700");
            ("m"%char, "vidmode"); ("o"%char, "")]
           {| Options.lat := Some 4; Options.lon := Some 4;
              Options.temp_day := 5500; Options.temp_night := 3700;
              Options.gamma := (1, 1, 1);
              Options.method := 1; Options.screen_num := -1;
              Options.crtc_num := -1;
              Options.transition := true; Options.one_shot := true;
              Options.verbose := false |}).
  reflexivity.
Defined.

Lemma dispatch_reaches_initialised_backend_witness :
  exists b,
    (fun _ : backend => true) b = true /\
    In (BkInit b) [BkInit Vidmode] /\
    (forall result temp,
       gamma_state_set_temperature true true false result 1 temp
       = ([BkSetTemperature b temp], result b)) /\
    gamma_state_restore true true false 1 = [BkRestore b] /\
    gamma_state_free true true false 1 = [BkFree b].
Proof.
  apply (dispatch_reaches_initialised_backend
           text_length decimal_value true true false
           [("l"%char, "55.7:12.6"); ("t"%char, "5500:3700");
            ("m"%char, "vidmode"); ("o"%char, "")]
           {| Options.lat := Some 4; Options.lon := Some 4;
              Options.temp_day := 5500; Options.temp_night := 3700;
              Options.gamma := (1, 1, 1);
              Options.method := 1; Options.screen_num := -1;
              Options.crtc_num := -1;
              Options.transition := true; Options.one_shot := true;
              Options.verbose := false |}
           (fun _ => true) [BkInit Vidmode] 1);
    reflexivity.
Defined.

Local Close Scope string_scope.

Lemma vidmode_init_failure_blocks_witness :
  VidMode.blocks_held (fst (VidMode.vidmode_init (-1) silent_server)) = 1%Z.
Proof.
  apply (vidmode_init_failure_blocks (-1) silent_server).
  reflexivity.
Defined.

Lemma vidmode_restore_round_trip_witness :
  VidMode.vidmode_restore
    {| VidMode.screen_num := 0; VidMode.ramp_size := 4;
       VidMode.saved_ramps :=
         [0; 16384; 32768; 49152; 0; 16384; 32768; 49152;
          0; 16384; 32768; 49152]%Z |}
  = [VidMode.XF86VidModeSetGammaRamp 0 4
       (VidMode.server_entries friendly_server VidMode.Red 4)
       (VidMode.server_entries friendly_server VidMode.Green 4)
       (VidMode.server_entries friendly_server VidMode.Blue 4)].
Proof.
  apply (vidmode_restore_round_trip (-1) friendly_server
           (fst (VidMode.vidmode_init (-1) friendly_server))).
  reflexivity.
Defined.

Lemma vidmode_session_balanced_witness :
  VidMode.blocks_held
    (VidMode.session_calls flat_ramp
       (fst (VidMode.vidmode_init (-1) friendly_server))
       {| VidMode.screen_num := 0; VidMode.ramp_size := 4;
          VidMode.saved_ramps :=
            [0; 16384; 32768; 49152; 0; 16384; 32768; 49152;
             0; 16384; 32768; 49152]%Z |}
       [VidMode.mk_adjustment 6500 (1, 1, 1) true (fun _ => 0%Z) true;
        VidMode.mk_adjustment 5500 (1, 1, 1) true (fun _ => 0%Z) false;
        VidMode.mk_adjustment 5500 (1, 1, 1) false (fun _ => 0%Z) true])
    = 0%Z /\
  VidMode.displays_held
    (VidMode.session_calls flat_ramp
       (fst (VidMode.vidmode_init (-1) friendly_server))
       {| VidMode.screen_num := 0; VidMode.ramp_size := 4;
          VidMode.saved_ramps :=
            [0; 16384; 32768; 49152; 0; 16384; 32768; 49152;
             0; 16384; 32768; 49152]%Z |}
       [VidMode.mk_adjustment 6500 (1, 1, 1) true (fun _ => 0%Z) true;
        VidMode.mk_adjustment 5500 (1, 1, 1) true (fun _ => 0%Z) false;
        VidMode.mk_adjustment 5500 (1, 1, 1) false (fun _ => 0%Z) true])
    = 0%Z.
Proof.
  apply (vidmode_session_balanced flat_ramp (-1) friendly_server).
  reflexivity.
Defined.
